(** * Fast-Higashi contact extraction: [fasthigashi/Fast_process.py]

    A shallow embedding of [data2mtx], [remove_blacklist] and
    [extract_table], and the properties of the extraction-and-aggregation
    engine proved on it; then of the set-up functions [create_dir],
    [generate_chrom_start_end] and [get_free_gpu].

    Conventions of the embedding:
    - a Python exception is a value of [exn]; code that may raise returns
      [result A];
    - the calls of [pool.submit] and [np.save] are logged as [event]s by
      the [io] monad;
    - what the program reads from disk ([np.load], [pd.read_table],
      [readlines], [bedtools subtract]), whether a call of [np.save]
      succeeds, what [str.strip] returns and the completion order of the
      worker pool are the fields of the class [Machine];
    - a pandas frame keeps the column names and one typed record per line;
    - the float32 entries of the matrices are an abstract type [num] with
      an addition (class [Numeric]), of which only the laws stated as
      hypotheses are used;
    - a bin is the integer floor of [pos / res]; the program floors a
      float64 quotient, which is that integer for [0 < res < 2^53] and
      [|pos| < 2^53], and the statements about bins carry these bounds
      ([exact_bins]);
    - the set-up functions have their own environments: the file of
      chromosome sizes (class [Reference]), the file system (class
      [Filesystem]), and the environment variables, the GPU queries and the
      random draw (class [Cuda]).  [get_config] and [parse_args], which only
      call [json.load] and [argparse], are not embedded. *)

From stdpp Require Import gmap strings list sorting.
From Stdlib Require Import ZArith Lia Ascii.

Local Open Scope Z_scope.

(** ** Exceptions and the error monad *)

Inductive exn := KeyError | IndexError | ValueError | EOFError | OSError.

Inductive result (A : Type) : Type :=
  | Ok (a : A)
  | Raise (e : exn).
Arguments Ok {A} a.
Arguments Raise {A} e.

Global Instance res_ret : MRet result := λ A, Ok.
Global Instance res_bind : MBind result := λ A B f m,
  match m with Ok a => f a | Raise e => Raise e end.

Definition is_ok {A} (r : result A) : Prop := ∃ a, r = Ok a.

(** [for x in l: s = body s x], stopping at the first exception. *)
Fixpoint for_result {S X} (body : S → X → result S) (s : S) (l : list X) : result S :=
  match l with
  | [] => Ok s
  | x :: l' => s' ← body s x; for_result body s' l'
  end.

(** ** Python lists indexed by an integer *)

(** [l[i]]: a negative index counts from the end, an index out of range
    raises [IndexError]. *)
Definition py_index {A} (l : list A) (i : Z) : result nat :=
  let n := Z.of_nat (length l) in
  if bool_decide (0 ≤ i < n) then Ok (Z.to_nat i)
  else if bool_decide (- n ≤ i < 0) then Ok (Z.to_nat (n + i))
  else Raise IndexError.

(** [l[i] = v] *)
Definition py_setitem {A} (l : list A) (i : Z) (v : A) : result (list A) :=
  k ← py_index l i; Ok (<[k := v]> l).

(** [l[i]] for [i] produced by [range] or [enumerate]. *)
Definition py_getitem {A} (l : list A) (i : nat) : result A :=
  match l !! i with Some x => Ok x | None => Raise IndexError end.

(** [range(n)]: empty when [n <= 0]. *)
Definition py_range (n : Z) : list Z := Z.of_nat <$> seq 0 (Z.to_nat n).

(** ** 64-bit integer columns *)

Definition wrap64 (z : Z) : Z := (z + 2 ^ 63) `mod` 2 ^ 64 - 2 ^ 63.
Definition sub64 (a b : Z) : Z := wrap64 (a - b).
Definition abs64 (a : Z) : Z := wrap64 (Z.abs a).

(** ** Paths *)

Definition starts_with_slash (s : string) : bool :=
  match s with String c _ => bool_decide (c = "/"%char) | EmptyString => false end.

Fixpoint ends_with_slash (s : string) : bool :=
  match s with
  | EmptyString => false
  | String c EmptyString => bool_decide (c = "/"%char)
  | String _ s' => ends_with_slash s'
  end.

(** [os.path.join(a, b)] on POSIX. *)
Definition path_join (a b : string) : string :=
  if starts_with_slash b then b
  else if bool_decide (a = "") || ends_with_slash a then a +:+ b
  else a +:+ "/" +:+ b.

(** ** [np.unique] on an integer column: the sorted distinct values *)

Definition np_unique (l : list Z) : list Z := merge_sort Z.le (remove_dups l).

(** [np.intersect1d(a, b)]: the sorted distinct values present in both. *)
Definition intersect1d (a b : list Z) : list Z :=
  np_unique (filter (λ x, x ∈ b) a).

(** [np.max] of a non-empty array; [ValueError] on an empty one. *)
Definition np_max (l : list Z) : result Z :=
  match l with
  | [] => Raise ValueError
  | x :: l' => Ok (foldl Z.max x l')
  end.

(** ** Effects: submitted tasks and saved arrays *)

(** A computation that logs events of type [E] and may raise. *)
Record io (E A : Type) : Type := IO { io_log : list E; io_res : result A }.
Arguments IO {E A} io_log io_res.
Arguments io_log {E A} _.
Arguments io_res {E A} _.

Global Instance io_ret {E} : MRet (io E) := λ A a, IO [] (Ok a).
Global Instance io_bind {E} : MBind (io E) := λ A B f m,
  match io_res m with
  | Ok a => IO (io_log m ++ io_log (f a)) (io_res (f a))
  | Raise e => IO (io_log m) (Raise e)
  end.

Definition emit {E} (e : E) : io E unit := IO [e] (Ok ()).
Definition lift {E A} (r : result A) : io E A := IO [] r.

Fixpoint for_io {E S X} (body : S → X → io E S) (s : S) (l : list X) : io E S :=
  match l with
  | [] => mret s
  | x :: l' => s' ← body s x; for_io body s' l'
  end.

(** ** The configuration ([config.JSON]) *)

(** Optional keys are the ones the program tests with [in config]. *)
Record config := {
  data_dir : string;
  temp_dir : string;
  chrom_list : list string;
  resolution : Z;
  blacklist : option string;
  input_format : option string;
  structured : option bool;
  header_included : option bool;
  contact_header : option (list string)
}.

(** ** Frames of contact records *)

(** The numbers stored in a matrix: float32 in the program. *)
Class Numeric := {
  num : Type;
  zero : num;
  one : num;
  add : num → num → num
}.

Section Frames.

Context `{Numeric}.

(** One line of a contact table.  [count] is read only when the frame has
    a column of that name. *)
Record contact := {
  cell_id : Z;
  chrom1 : string;
  pos1 : Z;
  chrom2 : string;
  pos2 : Z;
  count : num
}.

Record frame := { columns : list string; rows : list contact }.

Definition len (f : frame) : nat := length (rows f).

(** [df[mask]] for a row-wise mask. *)
Definition select (P : contact → Prop) `{∀ r, Decision (P r)} (f : frame) : frame :=
  {| columns := columns f; rows := filter P (rows f) |}.

(** [tab.columns = names] *)
Definition set_columns (f : frame) (names : list string) : result frame :=
  if bool_decide (length names = length (columns f))
  then Ok {| columns := names; rows := rows f |}
  else Raise ValueError.

(** [tab['count'] = 1] where the column does not exist yet. *)
Definition assign_count (f : frame) : frame :=
  {| columns := columns f ++ ["count"];
     rows := (λ r, {| cell_id := cell_id r; chrom1 := chrom1 r; pos1 := pos1 r;
                      chrom2 := chrom2 r; pos2 := pos2 r; count := one |}) <$> rows f |}.

(** [data['count'].values] *)
Definition count_values (f : frame) : result (list num) :=
  if bool_decide ("count" ∈ columns f) then Ok (count <$> rows f) else Raise KeyError.

(** [pd.concat(frames, axis=0)] of frames of one reader. *)
Definition pd_concat (fs : list frame) : result frame :=
  match fs with
  | [] => Raise ValueError
  | f :: _ => Ok {| columns := columns f; rows := mjoin (rows <$> fs) |}
  end.

(** ** Sparse matrices *)

Record csr := { shape : Z * Z; data : gmap (Z * Z) num }.


(** Duplicate coordinates are summed, in the order of the input. *)
Definition coo_put (m : gmap (Z * Z) num) (e : Z * Z * num) : gmap (Z * Z) num :=
  partial_alter (λ o, Some (match o with Some a => add a e.2 | None => e.2 end)) e.1 m.

Definition in_shape (shp : Z * Z) (ij : Z * Z) : Prop :=
  (0 ≤ ij.1 < shp.1) ∧ (0 ≤ ij.2 < shp.2).

(** [csr_matrix((data, (row, col)), shape=shp)]: [ValueError] on a negative
    dimension and on a coordinate outside the shape. *)
Definition csr_matrix (entries : list (Z * Z * num)) (shp : Z * Z) : result csr :=
  if bool_decide (0 ≤ shp.1 ∧ 0 ≤ shp.2) then
    if bool_decide (Forall (λ e, in_shape shp e.1) entries)
    then Ok {| shape := shp; data := foldl coo_put ∅ entries |}
    else Raise ValueError
  else Raise ValueError.

(** [m.T] *)
Definition transpose (m : csr) : csr :=
  {| shape := prod_swap (shape m); data := kmap prod_swap (data m) |}.

Definition add_stored (a b : option num) : option num :=
  match a, b with
  | None, None => None
  | _, _ => Some (add (default zero a) (default zero b))
  end.

(** [a + b]: [ValueError] on inconsistent shapes. *)
Definition csr_add (a b : csr) : result csr :=
  if bool_decide (shape a = shape b)
  then Ok {| shape := shape a; data := merge add_stored (data a) (data b) |}
  else Raise ValueError.

(** What [pool.submit] returns: the task's outcome, read by [p.result()]. *)
Definition future : Type := result (list csr * Z).

(** An entry of [mtx_all_list]: the integer [0] it is created with, or a
    matrix. *)
Inductive slot := Int0 | Mtx (m : csr).

(** The calls of [pool.submit] and of [np.save]. *)
Inductive event :=
  | Submit (cell_id : Z)
  | Save (path : string) (arr : list slot).

Inductive file_arg := Path (p : string) | Table (t : frame).

(** A line of the four-column BED file written for the anchors. *)
Record bed := { bed_chrom : string; bed_start : Z; bed_end : Z; bed_name : Z }.

(** The parallel arrays [chrom1], [bin1], [bin2], [count], one tuple per
    record. *)
Record entry := { e_chrom : string; e_bin1 : Z; e_bin2 : Z; e_count : num }.

End Frames.

(** ** The files and the worker pool *)

Class Machine `{Numeric} := {
  (** [overlaps blacklistbed chrom start end]: [bedtools subtract] removes
      the zero-length feature [chrom:start-end] when subtracting the
      intervals of the file [blacklistbed]. *)
  overlaps : string → string → Z → Z → bool;
  (** [pd.read_table(file, sep="\t")] when the flag is true,
      [pd.read_table(file, sep="\t", header=None)] otherwise. *)
  read_table : string → bool → result frame;
  (** [np.load(path)] of the chromosome layout table. *)
  np_load : string → result (list (Z * Z));
  (** The chunks that [pd.read_csv(f, chunksize=n, sep="\t")] yields. *)
  read_csv_chunks : string → Z → result (list frame);
  (** [f.readlines()] *)
  readlines : string → result (list string);
  (** [line.strip()] *)
  str_strip : string → string;
  (** The order in which [as_completed] yields the submitted futures. *)
  as_completed : list future → list future;
  (** Whether [np.save(path, arr, allow_pickle=True)] writes its file or
      raises. *)
  write_npy : string → list slot → result unit
}.

Section Program.

Context `{Machine}.

(** ** The blacklist filter *)

(** [bed_anchor.subtract(blacklist)] on zero-length features: each is kept
    or removed as a whole, in the order of the file. *)
Definition subtract (anchors : list bed) (blacklistbed : string) : list bed :=
  filter (λ f, overlaps blacklistbed (bed_chrom f) (bed_start f) (bed_end f) = false)
         anchors.

(** [np.arange(n)] *)
Definition np_arange (n : nat) : list Z := Z.of_nat <$> seq 0 n.

(** [df.iloc[idx, :]] *)
Definition iloc (f : frame) (idx : list Z) : result frame :=
  rs ← mapM (λ i, k ← py_index (rows f) i; py_getitem (rows f) k) idx;
  Ok {| columns := columns f; rows := rs |}.

(** [good_anchor.to_dataframe()['name']]: the frame that [to_dataframe]
    makes of a result without features has no column, and asking it for one
    raises [KeyError]. *)
Definition name_column (good_anchor : list bed) : result (list Z) :=
  match good_anchor with
  | [] => Raise KeyError
  | _ :: _ => Ok (bed_name <$> good_anchor)
  end.

(** [remove_blacklist] (lines 314-344). *)
Definition remove_blacklist (blacklistbed : string) (chromdf : frame) : result frame :=
  let left := zip_with (λ r i, {| bed_chrom := chrom1 r; bed_start := pos1 r;
                                  bed_end := pos1 r; bed_name := i |})
                       (rows chromdf) (np_arange (len chromdf)) in
  let right := zip_with (λ r i, {| bed_chrom := chrom2 r; bed_start := pos2 r;
                                   bed_end := pos2 r; bed_name := i |})
                        (rows chromdf) (np_arange (len chromdf)) in
  let good_anchor_left := subtract left blacklistbed in
  let good_anchor_right := subtract right blacklistbed in
  names_left ← name_column good_anchor_left;
  names_right ← name_column good_anchor_right;
  let good_index := intersect1d names_left names_right in
  iloc chromdf good_index.

(** ** The matrix builder *)

(** The distance rule of line 137, on int64 columns. *)
Definition keep_contact (r : contact) : Prop :=
  chrom1 r = chrom2 r ∧
  (2500 ≤ abs64 (sub64 (pos2 r) (pos1 r)) ∨ abs64 (sub64 (pos2 r) (pos1 r)) = 0).

Global Instance keep_contact_dec r : Decision (keep_contact r).
Proof. unfold keep_contact. apply _. Defined.

(** [np.floor(pos / res).astype('int')] for integer [pos] and [res].  The
    quotient is a float64.  For [res = 0] it is infinite or undefined, and
    the cast to int64 gives [-2^63].  For [0 < res < 2^53] and
    [|pos| < 2^53] its floor is the integer floor of [pos / res]; beyond,
    the rounding of the quotient can move a position to the next bin. *)
Definition bin_of (res pos : Z) : Z :=
  if bool_decide (res = 0) then - 2 ^ 63 else pos `div` res.

Definition entries_of (res : Z) (data : frame) (counts : list num) : list entry :=
  zip_with (λ r c, {| e_chrom := chrom1 r; e_bin1 := bin_of res (pos1 r);
                      e_bin2 := bin_of res (pos2 r); e_count := c |})
           (rows data) counts.

(** The loop over [enumerate(chrom_list)], from index [i] on. *)
Fixpoint m1_loop (chrom_start_end : list (Z * Z)) (i : nat) (chroms : list string)
    (arr : list entry) : result (list csr) :=
  match chroms with
  | [] => Ok []
  | chrom :: chroms' =>
      let mask := λ x, e_chrom x = chrom in
      se ← py_getitem chrom_start_end i;
      let size := se.2 - se.1 in
      m1 ← csr_matrix ((λ x, (e_bin1 x, e_bin2 x, e_count x)) <$> filter mask arr)
                      (size, size);
      m1 ← csr_add m1 (transpose m1);
      m1_list ← m1_loop chrom_start_end (S i) chroms' (filter (λ x, ¬ mask x) arr);
      Ok (m1 :: m1_list)
  end.

(** Lines 118-126: the file of one cell, with its columns named. *)
Definition read_named (config : config) (file : string) : result frame :=
  match header_included config with
  | Some true => read_table file true
  | Some false =>
      tab ← read_table file false;
      names ← match contact_header config with
              | Some h => Ok h | None => Raise KeyError end;
      set_columns tab (take (length (columns tab)) names)
  | None =>
      tab ← read_table file false;
      names ← match contact_header config with
              | Some h => Ok h | None => Raise KeyError end;
      set_columns tab names
  end.

(** Lines 117-130: the table [data2mtx] works on. *)
Definition read_contacts (config : config) (file : file_arg) : result frame :=
  match file with
  | Path p =>
      tab ← read_named config p;
      Ok (if bool_decide ("count" ∈ columns tab) then tab else assign_count tab)
  | Table t => Ok t
  end.

(** [data2mtx] (lines 116-165). *)
Definition data2mtx (config : config) (file : file_arg) (chrom_start_end : list (Z * Z))
    (verbose : bool) (cell_id : Z) (blacklist : string) : result (list csr * Z) :=
  tab ← read_contacts config file;
  let data := select keep_contact tab in
  data ← (if bool_decide (blacklist ≠ "" ∧ (0 < len data)%nat)
          then remove_blacklist blacklist data else Ok data);
  counts ← count_values data;
  m1_list ← m1_loop chrom_start_end 0 (chrom_list config)
                    (entries_of (resolution config) data counts);
  Ok (m1_list, cell_id).

(** ** Dispatch and aggregation *)

(** [pool.submit(data2mtx, ..., cell_id, ...)] *)
Definition submit (task : future) (cell_id : Z) : io event future :=
  IO [Submit cell_id] (Ok task).

(** [np.save(path, arr, allow_pickle=True)]: the call is logged, and it
    raises when the write fails. *)
Definition np_save (path : string) (arr : list slot) : io event unit :=
  emit (Save path arr);; lift (write_npy path arr).

(** [df.reset_index()]: the old index becomes a column, named [index], or
    [level_0] when [index] is taken; [ValueError] when that is taken too. *)
Definition reset_index (f : frame) : result frame :=
  let name := if bool_decide ("index" ∈ columns f) then "level_0" else "index" in
  if bool_decide (name ∈ columns f) then Raise ValueError
  else Ok {| columns := name :: columns f; rows := rows f |}.

(** [[[0] * cell_num for i in range(len(chrom_list))]]: one fresh list per
    chromosome. *)
Definition alloc (n_chrom : nat) (cell_num : Z) : list (list slot) :=
  replicate n_chrom (replicate (Z.to_nat cell_num) Int0).

(** [for i in range(len(chrom_list)): mtx_all_list[i][cell_id] = mtx_list[i]] *)
Definition store (n_chrom : nat) (mtx_all_list : list (list slot))
    (mtx_list : list csr) (cell_id : Z) : result (list (list slot)) :=
  for_result (λ all i,
      m ← py_getitem mtx_list i;
      row ← py_getitem all i;
      row' ← py_setitem row cell_id (Mtx m);
      Ok (<[i := row']> all))
    mtx_all_list (seq 0 n_chrom).

(** [for p in done: mtx_list, cell_id = p.result(); ...] for futures already
    in completion order. *)
Definition aggregate (n_chrom : nat) (mtx_all_list : list (list slot))
    (done : list future) : result (list (list slot)) :=
  for_result (λ all (p : future),
      r ← p;
      store n_chrom all r.1 r.2)
    mtx_all_list done.

(** The final loop over [chrom_list] with [np.save]. *)
Definition save_all (config : config) (mtx_all_list : list (list slot)) : io event unit :=
  for_io (λ _ i,
      chrom ← lift (py_getitem (chrom_list config) i);
      arr ← lift (py_getitem mtx_all_list i);
      np_save (path_join (path_join (temp_dir config) "raw")
                         (chrom +:+ "_sparse_adj.npy")) arr)
    () (seq 0 (length (chrom_list config))).

(** The two flushes of the chunked reader (lines 214-219 and 227-232):
    concatenate the pending frames and submit one task per cell found. *)
Definition flush (config : config) (chrom_start_end : list (Z * Z)) (blacklist : string)
    (cell_tab : list frame) (st : list future * Z) : io event (list future * Z) :=
  tab ← lift (pd_concat cell_tab ≫= reset_index);
  for_io (λ (st : list future * Z) cid,
      batch ← lift (reset_index (select (λ r, cell_id r = cid) tab));
      p ← submit (data2mtx config (Table batch) chrom_start_end false cid blacklist) cid;
      mret (st.1 ++ [p], Z.max st.2 (cid + 1)))
    st (np_unique (cell_id <$> rows tab)).

(** One iteration of [for chunk in reader]; the state is
    [(cell_tab, (p_list, cell_num))]. *)
Definition on_chunk (config : config) (chrom_start_end : list (Z * Z)) (blacklist : string)
    (st : list frame * (list future * Z)) (chunk : frame)
    : io event (list frame * (list future * Z)) :=
  if bool_decide (length (remove_dups (cell_id <$> rows chunk)) = 1%nat) then
    mret (st.1 ++ [chunk], st.2)
  else
    last_cell ← lift (match last (rows chunk) with
                      | Some r => Ok (cell_id r) | None => Raise IndexError end);
    let tails := select (λ r, cell_id r ≠ last_cell) chunk in
    let head := select (λ r, cell_id r = last_cell) chunk in
    st' ← flush config chrom_start_end blacklist (st.1 ++ [tails]) st.2;
    mret ([head], st').

(** The branch [structured = true] of the format [higashi_v1] (lines
    191-240); the progress bar and the count of lines it needs are left
    out. *)
Definition extract_structured (config : config) (chrom_start_end : list (Z * Z))
    (blacklist : string) : io event (list (list slot)) :=
  let chunksize := 5000000 in
  reader ← lift (read_csv_chunks (path_join (data_dir config) "data.txt") chunksize);
  st ← for_io (on_chunk config chrom_start_end blacklist) ([], ([], 0)) reader;
  st' ← (if bool_decide (length st.1 ≠ 0%nat)
         then flush config chrom_start_end blacklist st.1 st.2
         else mret st.2);
  let p_list := st'.1 in
  let cell_num := st'.2 in
  let mtx_all_list := alloc (length (chrom_list config)) cell_num in
  lift (aggregate (length (chrom_list config)) mtx_all_list (as_completed p_list)).

(** The branch [structured = false] and the branch without the key
    [structured] (lines 243-261 and 264-282 are the same code). *)
Definition extract_whole (config : config) (chrom_start_end : list (Z * Z))
    (blacklist : string) : io event (list (list slot)) :=
  data ← lift (read_table (path_join (data_dir config) "data.txt") true);
  let cell_id_all := np_unique (cell_id <$> rows data) in
  m ← lift (np_max cell_id_all);
  let cell_num := m + 1 in
  let mtx_all_list := alloc (length (chrom_list config)) cell_num in
  p_list ← for_io (λ p_list cid,
      batch ← lift (reset_index (select (λ r, cell_id r = cid) data));
      p ← submit (data2mtx config (Table batch) chrom_start_end false cid blacklist) cid;
      mret (p_list ++ [p]))
    [] (py_range cell_num);
  lift (aggregate (length (chrom_list config)) mtx_all_list (as_completed p_list)).

(** The format [higashi_v2]: one file per cell. *)
Definition extract_filelist (config : config) (chrom_start_end : list (Z * Z))
    (blacklist : string) : io event (list (list slot)) :=
  lines ← lift (readlines (path_join (data_dir config) "filelist.txt"));
  let filelist := str_strip <$> lines in
  let mtx_all_list := alloc (length (chrom_list config)) (Z.of_nat (length filelist)) in
  p_list ← for_io (λ p_list (cf : Z * string),
      p ← submit (data2mtx config (Path cf.2) chrom_start_end false cf.1 blacklist) cf.1;
      mret (p_list ++ [p]))
    [] (zip (np_arange (length filelist)) filelist);
  lift (aggregate (length (chrom_list config)) mtx_all_list (as_completed p_list)).

(** [extract_table(config)].  The value returned is [mtx_all_list], which
    the program holds when it has saved the arrays. *)
Definition extract_table (config : config) : io event (list (list slot)) :=
  let blacklist := default "" (blacklist config) in
  let input_format := default "higashi_v1" (input_format config) in
  chrom_start_end ← lift (np_load (path_join (temp_dir config) "chrom_start_end.npy"));
  if bool_decide (input_format = "higashi_v1") then
    mtx_all_list ← match structured config with
                   | Some true => extract_structured config chrom_start_end blacklist
                   | Some false => extract_whole config chrom_start_end blacklist
                   | None => extract_whole config chrom_start_end blacklist
                   end;
    save_all config mtx_all_list;;
    mret mtx_all_list
  else if bool_decide (input_format = "higashi_v2") then
    mtx_all_list ← extract_filelist config chrom_start_end blacklist;
    save_all config mtx_all_list;;
    mret mtx_all_list
  else
    lift (Raise EOFError).

End Program.

(** [config] with the key [input_format] set or removed. *)
Definition with_input_format (c : config) (fmt : option string) : config :=
  {| data_dir := data_dir c; temp_dir := temp_dir c;
     chrom_list := chrom_list c; resolution := resolution c;
     blacklist := blacklist c; input_format := fmt;
     structured := structured c; header_included := header_included c;
     contact_header := contact_header c |}.

(** * The set-up functions *)

(** ** The chromosome layout table *)

(** The set-up also raises [OverflowError], which the extraction never
    does. *)
Inductive setup_exn := Exn (e : exn) | OverflowError.

Inductive outcome (A : Type) : Type :=
  | Returns (a : A)
  | Raises (e : setup_exn).
Arguments Returns {A} a.
Arguments Raises {A} e.

Global Instance outcome_ret : MRet outcome := λ A, Returns.
Global Instance outcome_bind : MBind outcome := λ A B f m,
  match m with Returns a => f a | Raises e => Raises e end.

Definition of_result {A} (r : result A) : outcome A :=
  match r with Ok a => Returns a | Raise e => Raises (Exn e) end.

Fixpoint for_outcome {S X} (body : S → X → outcome S) (s : S) (l : list X) : outcome S :=
  match l with
  | [] => Returns s
  | x :: l' => s' ← body s x; for_outcome body s' l'
  end.

(** The keys of [config.JSON] that [generate_chrom_start_end] reads: those
    of the extraction and [genome_reference_path]. *)
Record setup_config := {
  extraction :> config;
  genome_reference_path : string
}.

(** What [pd.read_table(path, sep="\t", header=None)] gives for the file of
    chromosome sizes: its number of columns and, line by line, its first
    two fields, a name and an int64. *)
Record size_table := { n_columns : nat; size_rows : list (string * Z) }.

Class Reference := {
  read_sizes : string → result size_table
}.

(** [int(math.ceil(size / res))] for an int64 [size] and an integer [res]:
    the quotient is a float64, infinite or not a number when [res] is 0,
    and its ceiling is the integer ceiling as long as [|size| < 2^53] and
    [|res| < 2^53]. *)
Definition n_bin_of (size res : Z) : outcome Z :=
  if bool_decide (res = 0) then
    if bool_decide (size = 0) then Raises (Exn ValueError) else Raises OverflowError
  else Returns (- ((- size) `div` res)).

(** [a[i, :]] of a two-column array. *)
Definition get_row (a : list (Z * Z)) (i : nat) : outcome (Z * Z) :=
  match a !! i with Some r => Returns r | None => Raises (Exn IndexError) end.

Section Setup.

Context `{Reference}.

(** [generate_chrom_start_end] (lines 92-113).  The value returned is the
    call of [np.save] the function ends with: the path and the array.  The
    message it prints first is left out. *)
Definition generate_chrom_start_end (config : setup_config)
    : outcome (string * list (Z * Z)) :=
  let genome_reference_path := genome_reference_path config in
  let chrom_list := chrom_list config in
  let res := resolution config in
  let temp_dir := temp_dir config in
  chrom_size ← of_result (read_sizes genome_reference_path);
  chrom_size ← (if bool_decide (n_columns chrom_size = 2%nat)
                then Returns (size_rows chrom_size) else Raises (Exn ValueError));
  chrom_start_end ← for_outcome (λ chrom_start_end (ic : nat * string),
      let i := ic.1 in
      let chrom := ic.2 in
      size ← match filter (λ row : string * Z, row.1 = chrom) chrom_size with
             | row :: _ => Returns row.2
             | [] => Raises (Exn IndexError)
             end;
      n_bin ← n_bin_of size res;
      row ← get_row chrom_start_end i;
      let chrom_start_end := <[i := (row.1, wrap64 (row.1 + n_bin))]> chrom_start_end in
      if bool_decide (i + 1 < length chrom_list)%nat then
        row ← get_row chrom_start_end i;
        next ← get_row chrom_start_end (i + 1);
        Returns (<[(i + 1)%nat := (row.2, next.2)]> chrom_start_end)
      else Returns chrom_start_end)
    (replicate (length chrom_list) (0, 0))
    (zip (seq 0 (length chrom_list)) chrom_list);
  Returns (path_join temp_dir "chrom_start_end.npy", chrom_start_end).

End Setup.

(** ** Vocabulary *)

(** The size the table gives for a chromosome: that of the first line that
    names it. *)
Definition size_of (tab : size_table) (chrom : string) : option Z :=
  snd <$> head (filter (λ row : string * Z, row.1 = chrom) (size_rows tab)).

(** Consecutive windows of the given widths, from [start] on. *)
Fixpoint windows_from (start : Z) (widths : list Z) : list (Z * Z) :=
  match widths with
  | [] => []
  | w :: ws => (start, start + w) :: windows_from (start + w) ws
  end.

(** [w] is the number of bins of size [res] that cover [size]. *)
Definition covers (res size w : Z) : Prop := res * (w - 1) < size ≤ res * w.

(** The part of the array the loop has not reached: the start of the next
    window is set, the rest is zero. *)
Definition pending (start : Z) (chroms : list string) : list (Z * Z) :=
  match chroms with
  | [] => []
  | _ :: cs => (start, 0) :: replicate (length cs) (0, 0)
  end.

(** ** The directories *)

(** The file system, as far as [create_dir] uses it. *)
Class Filesystem := {
  fs : Type;
  (** [os.path.exists(path)] *)
  path_exists : fs → string → bool;
  (** [os.mkdir(path)] *)
  mkdir : fs → string → result fs
}.

Section Directories.

Context `{Filesystem}.

(** [create_dir] (lines 73-88), from one state of the file system to the
    next. *)
Definition create_dir (config : config) (s : fs) : result fs :=
  let temp_dir := temp_dir config in
  s ← (if path_exists s temp_dir then Ok s else mkdir s temp_dir);
  let raw_dir := path_join temp_dir "raw" in
  s ← (if path_exists s raw_dir then Ok s else mkdir s raw_dir);
  let rw_dir := path_join temp_dir "rw" in
  s ← (if path_exists s rw_dir then Ok s else mkdir s rw_dir);
  let embed_dir := path_join temp_dir "embed" in
  if path_exists s embed_dir then Ok s else mkdir s embed_dir.

End Directories.

(** ** The choice of a GPU *)

(** [s.split(sep)] for a separator of one character. *)
Fixpoint str_split (sep : ascii) (s : string) : list string :=
  match s with
  | EmptyString => [EmptyString]
  | String c s' =>
      if bool_decide (c = sep) then EmptyString :: str_split sep s'
      else match str_split sep s' with
           | piece :: pieces => String c piece :: pieces
           | [] => [String c EmptyString]
           end
  end.

(** What [get_free_gpu] prints, and its call of [torch.cuda.set_device].
    The text of the exception in the second message is left out. *)
Inductive gpu_event :=
  | SayNoGpusAllocated
  | SayErrorQuerying (gpu_id : Z)
  | SaySetting (gpu_id : Z)
  | SetDevice (gpu_id : Z)
  | SayNoFreeGpu.

Class Cuda := {
  (** [os.environ.get(name, None)] *)
  environ_get : string → option string;
  (** [int(x)] for a string *)
  py_int : string → result Z;
  (** [torch.cuda.get_device_properties(gpu_id).total_memory] *)
  total_memory : Z → result Z;
  (** [torch.cuda.memory_reserved(gpu_id)] *)
  memory_reserved : Z → result Z;
  (** The index [np.random.choice] draws among [n] candidates, taken modulo
      [n]. *)
  draw : nat → nat;
  (** Whether [torch.cuda.set_device(gpu_id)] raises. *)
  set_device : Z → result unit
}.

Section Gpu.

Context `{Cuda}.

(** [get_free_gpu] (lines 38-70). *)
Definition get_free_gpu : io gpu_event unit :=
  match environ_get "CUDA_VISIBLE_DEVICES" with
  | None => emit SayNoGpusAllocated
  | Some visible_devices =>
      visible_devices ← lift (mapM py_int (str_split "," visible_devices));
      free_memory ← for_io (λ free_memory gpu_id,
          match (total ← total_memory gpu_id;
                 reserved ← memory_reserved gpu_id;
                 Ok (total - reserved)) with
          | Ok memory_free => mret (free_memory ++ [memory_free])
          | Raise _ => emit (SayErrorQuerying gpu_id);; mret (free_memory ++ [0])
          end) [] visible_devices;
      if bool_decide (0 < length free_memory)%nat then
        max_mem ← lift (np_max free_memory);
        let ids := filter (λ i, free_memory !! i = Some max_mem)
                          (seq 0 (length free_memory)) in
        chosen_id ← lift (match ids !! (draw (length ids) `mod` length ids)%nat with
                          | Some i => Ok i
                          | None => Raise ValueError
                          end);
        global_gpu_id ← lift (py_getitem visible_devices chosen_id);
        emit (SaySetting global_gpu_id);;
        emit (SetDevice global_gpu_id);;
        lift (set_device global_gpu_id)
      else emit SayNoFreeGpu
  end.

(** The free memory the loop records for a GPU: 0 when a query raises. *)
Definition memory_free (gpu_id : Z) : Z :=
  match (total ← total_memory gpu_id;
         reserved ← memory_reserved gpu_id;
         Ok (total - reserved)) with
  | Ok m => m
  | Raise _ => 0
  end.

(** A query of the GPU raises. *)
Definition query_fails (gpu_id : Z) : bool :=
  match (total ← total_memory gpu_id;
         reserved ← memory_reserved gpu_id;
         Ok (total - reserved)) with
  | Ok _ => false
  | Raise _ => true
  end.

End Gpu.

(** * Vocabulary of the statements *)

Section Vocabulary.

Context `{Machine}.

(** Both anchors of the record survive the subtraction of [blacklistbed]. *)
Definition good_anchors (blacklistbed : string) (r : contact) : Prop :=
  overlaps blacklistbed (chrom1 r) (pos1 r) (pos1 r) = false ∧
  overlaps blacklistbed (chrom2 r) (pos2 r) (pos2 r) = false.

Global Instance good_anchors_dec bl r : Decision (good_anchors bl r).
Proof. unfold good_anchors. apply _. Defined.

(** The subtraction of [blacklistbed] leaves the left anchor of some record
    and the right anchor of some record. *)
Definition keeps_anchors (blacklistbed : string) (R : list contact) : Prop :=
  Exists (λ r, overlaps blacklistbed (chrom1 r) (pos1 r) (pos1 r) = false) R ∧
  Exists (λ r, overlaps blacklistbed (chrom2 r) (pos2 r) (pos2 r) = false) R.

Global Instance keeps_anchors_dec bl R : Decision (keeps_anchors bl R).
Proof. unfold keeps_anchors. apply _. Defined.

(** Lines 139-140 get through: there is no blacklist, or no record passed
    the distance rule, or the subtraction leaves anchors on both sides. *)
Definition filter_returns (blacklist : string) (tab : frame) : Prop :=
  blacklist = "" ∨ len (select keep_contact tab) = 0%nat ∨
  keeps_anchors blacklist (filter keep_contact (rows tab)).

Global Instance filter_returns_dec bl tab : Decision (filter_returns bl tab).
Proof. unfold filter_returns. apply _. Defined.

(** [mtx_all_list] has [n] rows of [N] slots. *)
Definition grid (n N : nat) (all : list (list slot)) : Prop :=
  length all = n ∧ Forall (λ row, length row = N) all.

(** The slot of chromosome [i] and cell [k]. *)
Definition cell_at (all : list (list slot)) (i k : nat) : option slot :=
  all !! i ≫= (.!! k).

(** What [store] leaves in [mtx_all_list]. *)
Definition put (all : list (list slot)) (r : list csr * Z) : list (list slot) :=
  zip_with (λ row m, <[Z.to_nat r.2 := Mtx m]> row) all r.1.



Definition triples (arr : list entry) : list (Z * Z * num) :=
  (λ x, (e_bin1 x, e_bin2 x, e_count x)) <$> arr.

Definition entry_of (res : Z) (r : contact) : entry :=
  {| e_chrom := chrom1 r; e_bin1 := bin_of res (pos1 r);
     e_bin2 := bin_of res (pos2 r); e_count := count r |}.

(** The records that reach the matrix construction when lines 137-140 get
    through. *)
Definition surviving (blacklist : string) (tab : frame) : list contact :=
  let kept := filter keep_contact (rows tab) in
  if decide (blacklist = "") then kept else filter (good_anchors blacklist) kept.





(** The rows of each cell id are contiguous: an id seen both before and
    after a row is the id of that row. *)
Definition contiguous (ids : list Z) : Prop :=
  ∀ before d after, ids = before ++ d :: after →
    ∀ c, c ∈ before → c ∈ after → c = d.

(** The records of one cell, in the order of the table. *)
Definition cell_rows (c : Z) (R : list contact) : list contact :=
  filter (λ r, cell_id r = c) R.

(** [cell_num] after the cells [cs] were submitted by the chunked reader. *)
Definition next_cell_num (cell_num : Z) (cs : list Z) : Z :=
  foldl (λ n c, Z.max n (c + 1)) cell_num cs.

(** The task submitted for cell [c] with the records [R] under the columns
    [cols]. *)
Definition task (config : config) (chrom_start_end : list (Z * Z)) (blacklist : string)
    (cols : list string) (R : list contact) (c : Z) : future :=
  data2mtx config (Table {| columns := cols; rows := cell_rows c R |})
           chrom_start_end false c blacklist.

(** The calls of [np.save] of the final loop for the arrays [mtx_all_list]. *)
Definition saves (config : config) (mtx_all_list : list (list slot)) : list event :=
  zip_with (λ chrom arr,
      Save (path_join (path_join (temp_dir config) "raw")
                      (chrom +:+ "_sparse_adj.npy")) arr)
    (chrom_list config) mtx_all_list.

(** What holds of the state [(cell_tab, (p_list, cell_num))] of the chunked
    reader when the records [P] of the table [R] have been read and the
    chunks [rest] are still to come: the tasks submitted so far are those of
    distinct cells [cs], each with all its records of [R]; these cells have
    no record in the pending frames nor in the chunks to come; and the
    pending frames hold, for each of their cells, all its records read so
    far. *)
Definition chunk_inv (config : config) (chrom_start_end : list (Z * Z))
    (blacklist : string) (cols : list string) (R P : list contact)
    (rest : list frame) (st : list frame * (list future * Z)) : Prop :=
  ∃ cs : list Z,
    st.2.1 = task config chrom_start_end blacklist ("level_0" :: "index" :: cols) R <$> cs ∧
    st.2.2 = next_cell_num 0 cs ∧
    NoDup cs ∧
    Forall (λ f, columns f = cols) st.1 ∧
    (P ≠ [] → st.1 ≠ []) ∧
    (∀ c, c ∈ cs → c ∉ cell_id <$> mjoin (rows <$> st.1)) ∧
    (∀ c, c ∈ cs → c ∉ cell_id <$> mjoin (rows <$> rest)) ∧
    (∀ c, c ∈ cs → c ∈ cell_id <$> P) ∧
    (∀ c, c ∈ cell_id <$> P → c ∈ cs ∨ c ∈ cell_id <$> mjoin (rows <$> st.1)) ∧
    (∀ c, c ∈ cell_id <$> mjoin (rows <$> st.1) →
       cell_rows c (mjoin (rows <$> st.1)) = cell_rows c P).

End Vocabulary.

(** * A sample run *)

(** Integer counts, which float32 represents exactly up to [2^24]. *)
Definition numeric_Z : Numeric := {| num := Z; zero := 0; one := 1; add := Z.add |}.

Module Sample.

Definition mk (cell : Z) (chrom : string) (p1 p2 : Z) (n : Z) : @contact numeric_Z :=
  @Build_contact numeric_Z cell chrom p1 chrom p2 n.

(** Cells 0 and 2 have records, cell 1 has none; the rows of each cell are
    contiguous. *)
Definition records : list (@contact numeric_Z) :=
  [ mk 0 "chr1" 500 3600 2; mk 0 "chr1" 500 500 5; mk 0 "chr1" 1000 3499 7;
    mk 2 "chr2" 0 9999 1 ].

Definition data_txt : @frame numeric_Z :=
  {| columns := ["cell_id"; "chrom1"; "pos1"; "chrom2"; "pos2"; "count"];
     rows := records |}.

(** The same table written without its count column. *)
Definition data_txt_no_count : @frame numeric_Z :=
  {| columns := ["cell_id"; "chrom1"; "pos1"; "chrom2"; "pos2"];
     rows := records |}.

(** A table in which cells 0 and 1 both have records. *)
Definition data_txt_full : @frame numeric_Z :=
  {| columns := ["cell_id"; "chrom1"; "pos1"; "chrom2"; "pos2"; "count"];
     rows := [ mk 0 "chr1" 500 3600 2; mk 0 "chr2" 0 9999 1; mk 1 "chr1" 500 500 5 ] |}.

Definition windows : list (Z * Z) := [(0, 10); (10, 20)].

(** [strip()] on a line of ASCII text. *)
Definition is_space (c : ascii) : bool :=
  bool_decide (c ∈ [" "; "009"; "010"; "011"; "012"; "013";
                    "028"; "029"; "030"; "031"]%char).

Fixpoint lstrip (s : string) : string :=
  match s with
  | String c s' => if is_space c then lstrip s' else s
  | EmptyString => EmptyString
  end.

Fixpoint rstrip (s : string) : string :=
  match s with
  | String c s' =>
      let t := rstrip s' in
      if is_space c && bool_decide (t = EmptyString) then EmptyString else String c t
  | EmptyString => EmptyString
  end.

Definition ascii_strip (s : string) : string := rstrip (lstrip s).

(** The lines of [filelist.txt], each with its newline. *)
Definition filelist_txt : list string :=
  ["cell0.txt" +:+ String "010" EmptyString; "cell1.txt" +:+ String "010" EmptyString].

(** A machine whose [data.txt] is [tab], read in one chunk, whose blacklist
    [bl.bed] covers [chr1:3000-4000], whose pool completes the tasks in the
    order of submission and whose writes succeed. *)
Definition machine (tab : @frame numeric_Z) : @Machine numeric_Z :=
  {| overlaps := λ bed chrom s e,
       bool_decide (bed = "bl.bed" ∧ chrom = "chr1" ∧ 3000 ≤ s < 4000);
     read_table := λ _ _, Ok tab;
     np_load := λ _, Ok windows;
     read_csv_chunks := λ _ _, Ok [tab];
     readlines := λ _, Ok filelist_txt;
     str_strip := ascii_strip;
     as_completed := λ p_list, p_list;
     write_npy := λ _ _, Ok () |}.

Definition cfg (fmt : option string) (chunked : option bool) : config :=
  {| data_dir := "data"; temp_dir := "tmp"; chrom_list := ["chr1"; "chr2"];
     resolution := 1000; blacklist := None; input_format := fmt;
     structured := chunked; header_included := Some true; contact_header := None |}.

(** The all-zero matrix of a window of ten bins. *)
Definition zeros10 : @csr numeric_Z := {| shape := (10, 10); data := ∅ |}.

End Sample.

(** * More sample inputs *)

Module Edge.

Import Sample.

(** A configuration that lists [chr1] twice. *)
Definition cfg_repeated : config :=
  {| data_dir := "data"; temp_dir := "tmp"; chrom_list := ["chr1"; "chr1"];
     resolution := 1000; blacklist := None; input_format := None;
     structured := None; header_included := Some true; contact_header := None |}.

(** A configuration that lists [chr1] only. *)
Definition cfg_chr1 : config :=
  {| data_dir := "data"; temp_dir := "tmp"; chrom_list := ["chr1"];
     resolution := 1000; blacklist := None; input_format := None;
     structured := None; header_included := Some true; contact_header := None |}.

(** The table with its header line and no record. *)
Definition empty_txt : @frame numeric_Z :=
  {| columns := ["cell_id"; "chrom1"; "pos1"; "chrom2"; "pos2"; "count"]; rows := [] |}.

(** The table with one more column, named [index]. *)
Definition indexed_txt : @frame numeric_Z :=
  {| columns := ["index"; "cell_id"; "chrom1"; "pos1"; "chrom2"; "pos2"; "count"];
     rows := records |}.

(** The machine of the sample run, with the chunks of [data.txt] given. *)
Definition machine_chunks (tab : @frame numeric_Z) (chunks : list (@frame numeric_Z))
    : @Machine numeric_Z :=
  {| overlaps := λ bed chrom s e,
       bool_decide (bed = "bl.bed" ∧ chrom = "chr1" ∧ 3000 ≤ s < 4000);
     read_table := λ _ _, Ok tab;
     np_load := λ _, Ok windows;
     read_csv_chunks := λ _ _, Ok chunks;
     readlines := λ _, Ok filelist_txt;
     str_strip := ascii_strip;
     as_completed := λ p_list, p_list;
     write_npy := λ _ _, Ok () |}.

(** The machine of the sample run on which the write of the array of
    [chr2] fails. *)
Definition machine_disk_full (tab : @frame numeric_Z) : @Machine numeric_Z :=
  {| overlaps := λ bed chrom s e,
       bool_decide (bed = "bl.bed" ∧ chrom = "chr1" ∧ 3000 ≤ s < 4000);
     read_table := λ _ _, Ok tab;
     np_load := λ _, Ok windows;
     read_csv_chunks := λ _ _, Ok [tab];
     readlines := λ _, Ok filelist_txt;
     str_strip := ascii_strip;
     as_completed := λ p_list, p_list;
     write_npy := λ path _,
       if bool_decide (path = "tmp/raw/chr2_sparse_adj.npy") then Raise OSError else Ok () |}.

(** Two records of one cell: the right anchor of the first and the left
    anchor of the second lie in the blacklisted interval [chr1:3000-4000]. *)
Definition half_blacklisted : @frame numeric_Z :=
  {| columns := ["cell_id"; "chrom1"; "pos1"; "chrom2"; "pos2"; "count"];
     rows := [ mk 0 "chr1" 500 3600 2; mk 0 "chr1" 3600 500 1 ] |}.

(** One record whose left anchor lies in the blacklisted interval. *)
Definition left_blacklisted : @frame numeric_Z :=
  {| columns := ["cell_id"; "chrom1"; "pos1"; "chrom2"; "pos2"; "count"];
     rows := [ mk 0 "chr1" 3600 500 1 ] |}.

(** The file of one cell, read without a header: four columns. *)
Definition cell_txt : @frame numeric_Z :=
  {| columns := ["0"; "1"; "2"; "3"]; rows := records |}.

Definition cfg_headerless (flag : option bool) : config :=
  {| data_dir := "data"; temp_dir := "tmp"; chrom_list := ["chr1"; "chr2"];
     resolution := 1000; blacklist := None; input_format := Some "higashi_v2";
     structured := None; header_included := flag;
     contact_header := Some ["chrom1"; "pos1"; "chrom2"; "pos2"; "count"] |}.

(** A file of chromosome sizes; [chr1] is named twice. *)
Definition sizes : size_table :=
  {| n_columns := 2; size_rows := [("chr1", 9500); ("chr2", 10000); ("chr1", 1)] |}.

Definition reference : Reference := {| read_sizes := λ _, Ok sizes |}.

Definition setup_cfg : setup_config :=
  {| extraction := cfg None None; genome_reference_path := "hg.sizes" |}.

(** A configuration that lists a chromosome the sizes file does not name. *)
Definition setup_cfg_unknown : setup_config :=
  {| extraction :=
       {| data_dir := "data"; temp_dir := "tmp"; chrom_list := ["chr1"; "chrX"];
          resolution := 1000; blacklist := None; input_format := None;
          structured := None; header_included := Some true; contact_header := None |};
     genome_reference_path := "hg.sizes" |}.

(** A file system in which only the listed directories exist. *)
Definition directories : Filesystem :=
  {| fs := list string;
     path_exists := λ s p, bool_decide (p ∈ s);
     mkdir := λ s p, if bool_decide (p ∈ s) then Raise OSError else Ok (p :: s) |}.

(** Three visible GPUs; the queries of GPU 2 raise. *)
Definition cuda (visible_devices : option string) : Cuda :=
  {| environ_get := λ name,
       if bool_decide (name = "CUDA_VISIBLE_DEVICES") then visible_devices else None;
     py_int := λ x,
       if bool_decide (x = "0") then Ok 0
       else if bool_decide (x = "1") then Ok 1
       else if bool_decide (x = "2") then Ok 2
       else Raise ValueError;
     total_memory := λ gpu_id, if bool_decide (gpu_id = 2) then Raise OSError else Ok 1000;
     memory_reserved := λ gpu_id, Ok (100 * gpu_id);
     draw := λ _, 0%nat;
     set_device := λ _, Ok () |}.

End Edge.

(** * Properties *)

Section Properties.

Context `{Machine}.

(** ** The distance rule *)

Lemma wrap64_small z : - 2 ^ 63 ≤ z < 2 ^ 63 → wrap64 z = z.
Proof. intros Hz. unfold wrap64. rewrite Z.mod_small; lia. Qed.



(** ** The format tag *)

(** C9. When the configured format tag is neither [higashi_v1] nor
    [higashi_v2], [extract_table] raises without having submitted a task or
    saved a file: its log of events is empty and its outcome is [EOFError]
    (or the error of loading the chromosome layout table, which is read
    before the tag is looked at). *)
Theorem unknown_format_raises (config : config) (fmt : string) :
  input_format config = Some fmt →
  fmt ≠ "higashi_v1" → fmt ≠ "higashi_v2" →
  io_log (extract_table config) = [] ∧
  io_res (extract_table config) =
    match np_load (path_join (temp_dir config) "chrom_start_end.npy") with
    | Ok _ => Raise EOFError
    | Raise e => Raise e
    end.
Proof.
  intros Hfmt H1 H2. unfold extract_table. rewrite Hfmt. simpl.
  rewrite !bool_decide_eq_false_2 by done.
  destruct (np_load _); done.
Qed.

(** C10. A configuration without the key [input_format] is extracted
    exactly as the same configuration with the tag [higashi_v1]. *)
Theorem missing_format_is_higashi_v1 (config : config) :
  input_format config = None →
  extract_table config = extract_table (with_input_format config (Some "higashi_v1")).
Proof.
  intros Hfmt. destruct config; simpl in Hfmt; subst. reflexivity.
Qed.

(** ** The blacklist filter *)

Lemma StronglySorted_sublist {A} (R : relation A) (l1 l2 : list A) :
  l1 `sublist_of` l2 → StronglySorted R l2 → StronglySorted R l1.
Proof.
  induction 1 as [|x l1 l2 Hsub IH|x l1 l2 Hsub IH]; intros Hs.
  - constructor.
  - apply StronglySorted_inv in Hs as [Hs Hall]. constructor; [by apply IH|].
    rewrite Forall_forall in Hall |- *. intros y Hy. apply Hall.
    by eapply elem_of_sublist.
  - apply StronglySorted_inv in Hs as [Hs _]. by apply IH.
Qed.

Lemma np_arange_sorted (s n : nat) : StronglySorted Z.le (Z.of_nat <$> seq s n).
Proof.
  revert s. induction n as [|n IH]; intros s; simpl; constructor; [apply IH|].
  rewrite Forall_fmap, Forall_forall. intros i Hi%elem_of_seq. simpl. lia.
Qed.

Lemma np_arange_NoDup (s n : nat) : NoDup (Z.of_nat <$> seq s n).
Proof. apply NoDup_fmap_2; [apply _|apply NoDup_seq]. Qed.

Lemma np_unique_sorted (l : list Z) :
  NoDup l → StronglySorted Z.le l → np_unique l = l.
Proof.
  intros Hnd Hs. unfold np_unique.
  apply (Sorted_unique Z.le).
  - apply Sorted_merge_sort; apply _.
  - by apply StronglySorted_Sorted.
  - rewrite merge_sort_Permutation.
    apply NoDup_Permutation; [apply NoDup_remove_dups|done|].
    intros x. apply elem_of_remove_dups.
Qed.

Lemma elem_of_np_unique (l : list Z) (x : Z) : x ∈ np_unique l ↔ x ∈ l.
Proof. unfold np_unique. by rewrite merge_sort_Permutation, elem_of_remove_dups. Qed.

Lemma NoDup_np_unique (l : list Z) : NoDup (np_unique l).
Proof. unfold np_unique. rewrite merge_sort_Permutation. apply NoDup_remove_dups. Qed.

Lemma Sorted_np_unique (l : list Z) : StronglySorted Z.le (np_unique l).
Proof. apply StronglySorted_merge_sort; apply _. Qed.

Lemma mapM_fmap_ok {A B C} (f : B → result C) (g : A → B) (h : A → C) (l : list A) :
  (∀ x, x ∈ l → f (g x) = Ok (h x)) → mapM f (g <$> l) = Ok (h <$> l).
Proof.
  induction l as [|x l IH]; intros Hf; [done|].
  rewrite fmap_cons.
  change (mapM f (g x :: (g <$> l)))
    with (y ← f (g x); k ← mapM f (g <$> l); mret (y :: k)).
  rewrite Hf by left. rewrite IH; [done|]. intros y Hy. apply Hf. by right.
Qed.

Section enumerated.

Context {A : Type} (P Q : A → Prop) `{∀ x, Decision (P x)} `{∀ x, Decision (Q x)}.

Lemma names_of_filter {B} (f : A → Z → B) (name : B → Z) (R : B → Prop)
    `{∀ b, Decision (R b)} (l : list A) (idx : list Z) :
  (∀ x i, name (f x i) = i) → (∀ x i, R (f x i) ↔ P x) →
  name <$> filter R (zip_with f l idx) = (filter (λ p, P p.1) (zip l idx)).*2.
Proof.
  intros Hname HR. revert idx.
  induction l as [|x l IH]; intros [|i idx]; simpl; try done.
  rewrite !filter_cons. simpl.
  destruct (decide (R (f x i))) as [HRx|HRx], (decide (P x)) as [HP|HP]; simpl.
  - by rewrite Hname, IH.
  - by apply HR in HRx.
  - by apply (HR x i) in HP.
  - apply IH.
Qed.

Lemma filter_names_in (X Y : list (A * Z)) :
  NoDup X.*2 → (∀ p, p ∈ Y → p ∈ X) →
  filter (λ i, i ∈ (filter (λ p, Q p.1) X).*2) (filter (λ p, P p.1) Y).*2
  = (filter (λ p, P p.1 ∧ Q p.1) Y).*2.
Proof.
  intros Hnd. induction Y as [|p Y IH]; intros HY; [done|].
  assert (HYX : ∀ q, q ∈ Y → q ∈ X) by (intros q Hq; apply HY; by right).
  assert (p.2 ∈ (filter (λ p, Q p.1) X).*2 ↔ Q p.1) as Hp.
  { rewrite list_elem_of_fmap. split.
    - intros [q [Hq2 [HQ Hq]%list_elem_of_filter]].
      assert (q = p) as ->; [|done].
      assert (Hpx : p ∈ X) by (apply HY; left).
      apply list_elem_of_lookup in Hq as [a Ha], Hpx as [b Hb].
      assert (a = b) as ->.
      { eapply NoDup_lookup; [exact Hnd| |].
        - rewrite list_lookup_fmap, Ha. done.
        - rewrite list_lookup_fmap, Hb. simpl. by rewrite Hq2. }
      congruence.
    - intros HQ. exists p. split; [done|]. apply list_elem_of_filter. split; [done|].
      apply HY. left. }
  rewrite !(filter_cons _ p). simpl.
  destruct (decide (P p.1)) as [HP|HP]; simpl.
  - rewrite filter_cons.
    destruct (decide (p.2 ∈ _)) as [Hin|Hin], (decide (P p.1 ∧ Q p.1)) as [HPQ|HPQ].
    + rewrite fmap_cons. f_equal. by apply IH.
    + exfalso. apply HPQ. split; [done|by apply Hp].
    + exfalso. apply Hin, Hp. tauto.
    + by apply IH.
  - destruct (decide (P p.1 ∧ Q p.1)) as [[? ?]|?]; [done|]. by apply IH.
Qed.

Lemma fst_filter_zip (l : list A) (idx : list Z) :
  length l = length idx →
  (filter (λ p, P p.1) (zip l idx)).*1 = filter P l.
Proof.
  revert idx. induction l as [|x l IH]; intros [|i idx] Hlen; simpl in *; try done.
  rewrite !filter_cons. simpl. destruct (decide (P x)); simpl; rewrite IH; auto.
Qed.
End enumerated.
Lemma py_index_arange {A} (l : list A) (x : A) (i : Z) :
  (x, i) ∈ zip l (np_arange (length l)) →
  (k ← py_index l i; py_getitem l k) = Ok x.
Proof.
  intros [k Hk]%list_elem_of_lookup.
  apply lookup_zip_Some in Hk as [Hx Hi].
  unfold np_arange in Hi. rewrite list_lookup_fmap in Hi.
  destruct (seq 0 (length l) !! k) as [j|] eqn:Hj; [|done].
  apply lookup_seq in Hj as [-> Hlt]. simpl in Hi. injection Hi as <-.
  unfold py_index. rewrite bool_decide_eq_true_2 by lia. simpl.
  unfold py_getitem. by rewrite Nat2Z.id, Hx.
Qed.

Lemma good_index_select (blacklistbed : string) (chromdf : frame) :
  iloc chromdf
    (intersect1d
       (bed_name <$> subtract
          (zip_with (λ r i, {| bed_chrom := chrom1 r; bed_start := pos1 r;
                               bed_end := pos1 r; bed_name := i |})
                    (rows chromdf) (np_arange (len chromdf))) blacklistbed)
       (bed_name <$> subtract
          (zip_with (λ r i, {| bed_chrom := chrom2 r; bed_start := pos2 r;
                               bed_end := pos2 r; bed_name := i |})
                    (rows chromdf) (np_arange (len chromdf))) blacklistbed))
  = Ok (select (good_anchors blacklistbed) chromdf).
Proof.
  unfold subtract, intersect1d, len.
  set (idx := np_arange (length (rows chromdf))).
  rewrite (names_of_filter
    (λ r, overlaps blacklistbed (chrom1 r) (pos1 r) (pos1 r) = false)
    (λ r i, {| bed_chrom := chrom1 r; bed_start := pos1 r; bed_end := pos1 r;
               bed_name := i |})) by (intros; reflexivity).
  rewrite (names_of_filter
    (λ r, overlaps blacklistbed (chrom2 r) (pos2 r) (pos2 r) = false)
    (λ r i, {| bed_chrom := chrom2 r; bed_start := pos2 r; bed_end := pos2 r;
               bed_name := i |})) by (intros; reflexivity).
  assert (Hlen : length (rows chromdf) = length idx).
  { unfold idx, np_arange. by rewrite length_fmap, length_seq. }
  assert (Hidx : (zip (rows chromdf) idx).*2 = idx) by (apply snd_zip; lia).
  match goal with |- iloc _ (np_unique ?l) = _ =>
    assert (l = (filter (λ p, good_anchors blacklistbed p.1)
                        (zip (rows chromdf) idx)).*2) as ->
  end.
  { refine (filter_names_in
      (λ r, overlaps blacklistbed (chrom1 r) (pos1 r) (pos1 r) = false)
      (λ r, overlaps blacklistbed (chrom2 r) (pos2 r) (pos2 r) = false)
      (zip (rows chromdf) idx) (zip (rows chromdf) idx) _ _); [|done].
    rewrite Hidx. apply np_arange_NoDup. }
  rewrite np_unique_sorted.
  - unfold iloc. rewrite (mapM_fmap_ok _ snd fst).
    + simpl. unfold select. f_equal. f_equal.
      apply (fst_filter_zip (good_anchors blacklistbed)). done.
    + intros [x i] [_ Hx]%list_elem_of_filter. simpl. by apply py_index_arange.
  - eapply sublist_NoDup; [|apply fmap_sublist, sublist_filter].
    rewrite Hidx. apply np_arange_NoDup.
  - eapply StronglySorted_sublist; [apply fmap_sublist, sublist_filter|].
    rewrite Hidx. apply np_arange_sorted.
Qed.

(** The subtraction leaves no feature exactly when no anchor survives. *)
Lemma subtract_nil (blacklistbed : string) (P : contact → Prop) (f : contact → Z → bed)
    (l : list contact) (idx : list Z) :
  length l = length idx →
  (∀ x i, overlaps blacklistbed (bed_chrom (f x i)) (bed_start (f x i)) (bed_end (f x i))
          = false ↔ P x) →
  subtract (zip_with f l idx) blacklistbed = [] ↔ ¬ Exists P l.
Proof.
  intros Hlen HP. revert idx Hlen.
  induction l as [|x l IH]; intros [|i idx] Hlen; simpl in Hlen; try done.
  { split; [|done]. intros _ Hex. by apply Exists_nil in Hex. }
  unfold subtract in *. cbn [zip_with]. rewrite filter_cons, Exists_cons.
  destruct (decide _) as [Hx|Hx].
  - split; [done|]. intros Hn. exfalso. apply Hn. left. by apply (HP x i).
  - rewrite IH by lia. split.
    + intros Hn [Hp|He]; [|by apply Hn]. apply Hx. by apply (HP x i).
    + intros Hn He. apply Hn. by right.
Qed.

Lemma name_column_subtract (blacklistbed : string) (P : contact → Prop)
    `{∀ r, Decision (P r)} (f : contact → Z → bed) (l : list contact) :
  (∀ x i, overlaps blacklistbed (bed_chrom (f x i)) (bed_start (f x i)) (bed_end (f x i))
          = false ↔ P x) →
  name_column (subtract (zip_with f l (np_arange (length l))) blacklistbed)
  = if decide (Exists P l)
    then Ok (bed_name <$> subtract (zip_with f l (np_arange (length l))) blacklistbed)
    else Raise KeyError.
Proof.
  intros HP.
  assert (Hnil := subtract_nil blacklistbed P f l (np_arange (length l))).
  destruct (subtract _ _) as [|b bs].
  - rewrite decide_False; [done|]. apply Hnil; [|done|done].
    unfold np_arange. by rewrite length_fmap, length_seq.
  - destruct (decide (Exists P l)) as [|Hn]; [done|].
    apply Hnil in Hn; [done| |done].
    unfold np_arange. by rewrite length_fmap, length_seq.
Qed.

(** What [remove_blacklist] does: [KeyError] when the subtraction leaves no
    left anchor or no right anchor, and otherwise the rows whose two anchors
    both survive. *)
Lemma remove_blacklist_run (blacklistbed : string) (chromdf : frame) :
  remove_blacklist blacklistbed chromdf
  = if decide (keeps_anchors blacklistbed (rows chromdf))
    then Ok (select (good_anchors blacklistbed) chromdf)
    else Raise KeyError.
Proof.
  unfold remove_blacklist, keeps_anchors, len.
  rewrite (name_column_subtract blacklistbed
    (λ r, overlaps blacklistbed (chrom1 r) (pos1 r) (pos1 r) = false)
    (λ r i, {| bed_chrom := chrom1 r; bed_start := pos1 r; bed_end := pos1 r;
               bed_name := i |})) by (intros; reflexivity).
  destruct (decide (Exists _ (rows chromdf))) as [Hl|Hl].
  2:{ rewrite decide_False; [done|]. tauto. }
  cbn [mbind res_bind].
  rewrite (name_column_subtract blacklistbed
    (λ r, overlaps blacklistbed (chrom2 r) (pos2 r) (pos2 r) = false)
    (λ r i, {| bed_chrom := chrom2 r; bed_start := pos2 r; bed_end := pos2 r;
               bed_name := i |})) by (intros; reflexivity).
  destruct (decide (Exists _ (rows chromdf))) as [Hr|Hr].
  2:{ rewrite decide_False; [done|]. tauto. }
  cbn [mbind res_bind]. rewrite decide_True by done.
  apply good_index_select.
Qed.

(** X20. The blacklist filter raises [KeyError] when the subtraction leaves
    no left anchor or no right anchor; otherwise it returns, in their order,
    the rows whose two anchors both survive.  Applied again with the same
    blacklist, it returns a result that has a row unchanged, and raises
    [KeyError] on a result that has none. *)
Theorem remove_blacklist_keeps_the_good_rows (blacklistbed : string) (chromdf : frame) :
  (¬ keeps_anchors blacklistbed (rows chromdf) →
     remove_blacklist blacklistbed chromdf = Raise KeyError) ∧
  (keeps_anchors blacklistbed (rows chromdf) →
     ∃ kept : frame,
       remove_blacklist blacklistbed chromdf = Ok kept ∧
       columns kept = columns chromdf ∧
       rows kept = filter (good_anchors blacklistbed) (rows chromdf) ∧
       (rows kept ≠ [] → remove_blacklist blacklistbed kept = Ok kept) ∧
       (rows kept = [] → remove_blacklist blacklistbed kept = Raise KeyError)).
Proof.
  split.
  { intros Hno. by rewrite remove_blacklist_run, decide_False. }
  intros Hkeeps. exists (select (good_anchors blacklistbed) chromdf).
  split; [by rewrite remove_blacklist_run, decide_True|].
  split; [done|]. split; [done|].
  cbn [select rows]. split.
  - intros Hne. rewrite remove_blacklist_run. unfold select in *. cbn [rows columns] in *.
    destruct (filter (good_anchors blacklistbed) (rows chromdf)) as [|r R] eqn:HR; [done|].
    assert (good_anchors blacklistbed r) as [Hl Hr].
    { assert (r ∈ filter (good_anchors blacklistbed) (rows chromdf)) as Hin
        by (rewrite HR; left).
      by apply list_elem_of_filter in Hin as [? _]. }
    rewrite decide_True by (split; by left).
    f_equal. f_equal.
    rewrite <- HR, list_filter_filter. apply list_filter_iff. tauto.
  - intros Hnil. rewrite remove_blacklist_run. unfold select in *. cbn [rows] in *.
    rewrite Hnil.
    rewrite decide_False; [done|]. intros [Hex _]. by apply Exists_nil in Hex.
Qed.

(** ** Aggregation *)

Lemma for_result_app {S X} (body : S → X → result S) (s : S) (l1 l2 : list X) :
  for_result body s (l1 ++ l2) = s' ← for_result body s l1; for_result body s' l2.
Proof.
  revert s. induction l1 as [|x l1 IH]; intros s; [done|]. simpl.
  destruct (body s x) as [s'|e]; simpl; [apply IH|done].
Qed.

Lemma alloc_grid (n : nat) (cell_num : Z) : grid n (Z.to_nat cell_num) (alloc n cell_num).
Proof.
  unfold grid, alloc. split; [apply length_replicate|].
  apply Forall_replicate, length_replicate.
Qed.

Lemma cell_at_alloc (n : nat) (cell_num : Z) (i k : nat) :
  (i < n)%nat → (k < Z.to_nat cell_num)%nat → cell_at (alloc n cell_num) i k = Some Int0.
Proof.
  intros Hi Hk. unfold cell_at, alloc.
  rewrite lookup_replicate_2 by done. simpl. by apply lookup_replicate_2.
Qed.

Lemma grid_eq (n N : nat) (g g' : list (list slot)) :
  grid n N g → grid n N g' →
  (∀ i k, (i < n)%nat → (k < N)%nat → cell_at g i k = cell_at g' i k) →
  g = g'.
Proof.
  intros [Hn HN] [Hn' HN'] Hcell.
  apply list_eq_same_length with n; [done..|].
  intros i row row' Hi Hrow Hrow'.
  rewrite Forall_forall in HN, HN'.
  apply list_eq_same_length with N.
  - apply HN'. by eapply list_elem_of_lookup_2.
  - apply HN. by eapply list_elem_of_lookup_2.
  - intros k x y Hk Hx Hy.
    specialize (Hcell i k Hi Hk). unfold cell_at in Hcell.
    rewrite Hrow, Hrow' in Hcell. simpl in Hcell. congruence.
Qed.

Lemma put_grid (n N : nat) (all : list (list slot)) (r : list csr * Z) :
  grid n N all → length r.1 = n → grid n N (put all r).
Proof.
  intros [Hn HN] Hr. unfold put. split.
  - rewrite length_zip_with. lia.
  - rewrite Forall_forall in HN. apply Forall_forall. intros row' Hrow'.
    apply elem_of_zip_with in Hrow' as (row & m & -> & Hrow & _).
    rewrite length_insert. by apply HN.
Qed.

Lemma cell_at_put (n N : nat) (all : list (list slot)) (r : list csr * Z) (i k : nat) :
  grid n N all → length r.1 = n → (i < n)%nat → (k < N)%nat →
  cell_at (put all r) i k =
    if decide (Z.to_nat r.2 = k) then Mtx <$> r.1 !! i else cell_at all i k.
Proof.
  intros [Hn HN] Hr Hi Hk. unfold cell_at, put.
  rewrite lookup_zip_with.
  destruct (lookup_lt_is_Some_2 all i) as [row Hrow]; [lia|].
  destruct (lookup_lt_is_Some_2 r.1 i) as [m Hm]; [lia|].
  rewrite Hrow, Hm. simpl.
  assert (length row = N) as Hlen.
  { rewrite Forall_forall in HN. apply HN. by eapply list_elem_of_lookup_2. }
  destruct (decide (Z.to_nat r.2 = k)) as [->|Hne].
  - apply list_lookup_insert_eq. lia.
  - by apply list_lookup_insert_ne.
Qed.

Lemma store_put (n N : nat) (all : list (list slot)) (mtx_list : list csr) (cell_id : Z) :
  grid n N all → length mtx_list = n → 0 ≤ cell_id < Z.of_nat N →
  store n all mtx_list cell_id = Ok (put all (mtx_list, cell_id)).
Proof.
  intros [Hn HN] Hml Hc. unfold store, put. simpl.
  set (upd := λ (row : list slot) m, <[Z.to_nat cell_id := Mtx m]> row).
  set (body := λ (all : list (list slot)) (i : nat), _).
  assert (Hk : ∀ k, (k ≤ n)%nat →
    for_result body all (seq 0 k)
    = Ok (zip_with upd (take k all) (take k mtx_list) ++ drop k all)).
  { induction k as [|k IH]; intros Hle; [by rewrite drop_0|].
    rewrite seq_S, for_result_app, IH by lia. simpl.
    destruct (lookup_lt_is_Some_2 all k) as [row Hrow]; [lia|].
    destruct (lookup_lt_is_Some_2 mtx_list k) as [m Hm]; [lia|].
    assert (length row = N) as Hlen.
    { rewrite Forall_forall in HN. apply HN. by eapply list_elem_of_lookup_2. }
    assert (Hpre : length (zip_with upd (take k all) (take k mtx_list)) = k).
    { rewrite length_zip_with, !length_take. lia. }
    unfold body at 1. unfold py_getitem. rewrite Hm. simpl.
    rewrite lookup_app_r, Hpre, Nat.sub_diag, lookup_drop, Nat.add_0_r, Hrow by lia.
    simpl. unfold py_setitem, py_index.
    rewrite bool_decide_eq_true_2 by lia. simpl. f_equal.
    rewrite insert_app_r_alt, Hpre, Nat.sub_diag by lia.
    rewrite (drop_S all row k Hrow). simpl.
    rewrite (take_S_r all k row Hrow), (take_S_r mtx_list k m Hm).
    rewrite zip_with_app by (rewrite !length_take; lia).
    simpl. by rewrite <- app_assoc. }
  rewrite Hk by done.
  rewrite drop_ge, app_nil_r by lia.
  by rewrite !take_ge by lia.
Qed.

Lemma aggregate_put (n N : nat) (done : list (list csr * Z)) (all : list (list slot)) :
  grid n N all →
  Forall (λ r, length r.1 = n ∧ 0 ≤ r.2 < Z.of_nat N) done →
  aggregate n all (Ok <$> done) = Ok (foldl put all done).
Proof.
  intros Hg Hdone. revert all Hg.
  induction Hdone as [|r done [Hr Hc] _ IH]; intros all Hg; [done|].
  unfold aggregate in *. simpl.
  rewrite (store_put n N) by done. simpl.
  apply IH. by apply put_grid.
Qed.

Lemma foldl_put_spec (n N : nat) (done : list (list csr * Z)) (all : list (list slot)) :
  grid n N all →
  Forall (λ r, length r.1 = n ∧ 0 ≤ r.2 < Z.of_nat N) done →
  NoDup done.*2 →
  grid n N (foldl put all done) ∧
  ∀ i k, (i < n)%nat → (k < N)%nat →
    (∀ r, r ∈ done → r.2 = Z.of_nat k →
       cell_at (foldl put all done) i k = Mtx <$> r.1 !! i) ∧
    (Z.of_nat k ∉ done.*2 → cell_at (foldl put all done) i k = cell_at all i k).
Proof.
  intros Hg Hdone. revert all Hg.
  induction Hdone as [|r done [Hr Hc] _ IH]; intros all Hg Hnd.
  { split; [done|]. intros i k _ _. split; [|done]. intros r Hr. by apply elem_of_nil in Hr. }
  rewrite fmap_cons in Hnd. apply NoDup_cons in Hnd as [Hr2 Hnd]. simpl.
  destruct (IH (put all r)) as [Hg' Hcells]; [by apply put_grid|done|].
  split; [done|]. intros i k Hi Hk.
  destruct (Hcells i k Hi Hk) as [Hin Hout].
  pose proof (cell_at_put n N all r i k Hg Hr Hi Hk) as Hput.
  split.
  - intros r' [->|Hr']%elem_of_cons Hk'; [|by apply Hin].
    rewrite Hout by (by rewrite <- Hk'). rewrite Hput.
    rewrite decide_True; [done|]. rewrite Hk'. apply Nat2Z.id.
  - intros [Hne Hnot]%not_elem_of_cons.
    rewrite Hout by done. rewrite Hput. rewrite decide_False; [done|]. lia.
Qed.

(** C7. When the completed results carry distinct cell ids, all in
    [[0, cell_num)], and one matrix per chromosome, the aggregation loop
    succeeds and leaves the same [mtx_all_list] for every order in which
    the results complete. *)
Theorem aggregate_order_independent (n_chrom : nat) (cell_num : Z)
    (done done' : list (list csr * Z)) :
  done ≡ₚ done' →
  NoDup done.*2 →
  (∀ c, c ∈ done.*2 → 0 ≤ c < cell_num) →
  Forall (λ r, length r.1 = n_chrom) done →
  ∃ g, aggregate n_chrom (alloc n_chrom cell_num) (Ok <$> done) = Ok g ∧
       aggregate n_chrom (alloc n_chrom cell_num) (Ok <$> done') = Ok g.
Proof.
  intros Hperm Hnd Hrange Hlen.
  set (N := Z.to_nat cell_num).
  assert (Hok : Forall (λ r, length r.1 = n_chrom ∧ 0 ≤ r.2 < Z.of_nat N) done).
  { rewrite Forall_forall in Hlen |- *. intros r Hr. split; [by apply Hlen|].
    assert (0 ≤ r.2 < cell_num) by (apply Hrange, list_elem_of_fmap; eauto). lia. }
  assert (Hok' : Forall (λ r, length r.1 = n_chrom ∧ 0 ≤ r.2 < Z.of_nat N) done').
  { by rewrite <- Hperm. }
  assert (Hnd' : NoDup done'.*2) by (by rewrite <- Hperm).
  pose proof (alloc_grid n_chrom cell_num) as Hg. fold N in Hg.
  exists (foldl put (alloc n_chrom cell_num) done).
  split; [by apply (aggregate_put n_chrom N)|].
  rewrite (aggregate_put n_chrom N) by done. f_equal.
  destruct (foldl_put_spec n_chrom N done _ Hg Hok Hnd) as [Hg1 H1].
  destruct (foldl_put_spec n_chrom N done' _ Hg Hok' Hnd') as [Hg2 H2].
  apply (grid_eq n_chrom N); [done..|]. intros i k Hi Hk.
  destruct (H1 i k Hi Hk) as [Hin1 Hout1], (H2 i k Hi Hk) as [Hin2 Hout2].
  destruct (decide (Z.of_nat k ∈ done.*2)) as [Hin|Hout].
  - apply list_elem_of_fmap in Hin as (r & Hk' & Hr).
    rewrite (Hin1 r) by done. rewrite (Hin2 r); [done| |done]. by rewrite <- Hperm.
  - rewrite Hout1 by done. rewrite Hout2; [done|]. by rewrite <- Hperm.
Qed.

(** ** Sparse matrices *)








Lemma csr_add_transpose_lookup (m0 m : csr) (i j : Z) :
  csr_add m0 (transpose m0) = Ok m →
  shape m = shape m0 ∧
  data m !! (i, j) = add_stored (data m0 !! (i, j)) (data m0 !! (j, i)).
Proof.
  unfold csr_add. case_bool_decide; [|done]. intros [= <-]. cbn [shape data].
  split; [done|]. rewrite lookup_merge.
  rewrite (lookup_kmap prod_swap (data m0) (j, i)).
  by destruct (data m0 !! (i, j)), (data m0 !! (j, i)).
Qed.



Lemma csr_add_transpose_empty (m0 m : csr) :
  data m0 = ∅ → csr_add m0 (transpose m0) = Ok m → data m = ∅.
Proof.
  intros Hempty Hadd. apply map_eq. intros [i j].
  destruct (csr_add_transpose_lookup m0 m i j Hadd) as [_ ->].
  by rewrite Hempty, !lookup_empty.
Qed.

(** ** The matrix builder *)

Lemma filter_fmap {A B} (f : A → B) (P : B → Prop) `{∀ b, Decision (P b)} (l : list A) :
  filter P (f <$> l) = f <$> filter (λ x, P (f x)) l.
Proof.
  induction l as [|x l IH]; [done|]. rewrite fmap_cons, !filter_cons.
  destruct (decide (P (f x))); [rewrite fmap_cons|]; by rewrite IH.
Qed.

Lemma filter_all {A} (P : A → Prop) `{∀ x, Decision (P x)} (l : list A) :
  (∀ x, x ∈ l → P x) → filter P l = l.
Proof.
  induction l as [|x l IH]; intros HP; [done|]. rewrite filter_cons.
  rewrite decide_True by (apply HP; left). f_equal. apply IH.
  intros y Hy. apply HP. by right.
Qed.

Lemma m1_loop_spec (chrom_start_end : list (Z * Z)) (chroms : list string) :
  ∀ (i : nat) (arr : list entry) (m1_list : list csr),
  m1_loop chrom_start_end i chroms arr = Ok m1_list →
  length m1_list = length chroms ∧
  ∀ (j : nat) (chrom : string), chroms !! j = Some chrom →
    ∃ se m0 m,
      chrom_start_end !! (i + j)%nat = Some se ∧
      csr_matrix (triples (filter (λ x, e_chrom x = chrom)
                            (filter (λ x, e_chrom x ∉ take j chroms) arr)))
                 (se.2 - se.1, se.2 - se.1) = Ok m0 ∧
      csr_add m0 (transpose m0) = Ok m ∧
      m1_list !! j = Some m.
Proof.
  induction chroms as [|c chroms IH]; intros i arr m1_list Hloop.
  { injection Hloop as <-. split; [done|]. intros j chrom Hj. done. }
  simpl in Hloop. unfold py_getitem in Hloop.
  destruct (chrom_start_end !! i) as [se|] eqn:Hse; [|done]. simpl in Hloop.
  destruct (csr_matrix _ _) as [m0|] eqn:Hm0; [|done]. simpl in Hloop.
  destruct (csr_add m0 _) as [m|] eqn:Hm; [|done]. simpl in Hloop.
  destruct (m1_loop _ _ _ _) as [rest|] eqn:Hrest; [|done]. simpl in Hloop.
  injection Hloop as <-.
  destruct (IH _ _ _ Hrest) as [Hlen Hnth].
  split; [simpl; by rewrite Hlen|].
  intros [|j] chrom Hj.
  - injection Hj as ->. exists se, m0, m. rewrite Nat.add_0_r.
    split; [done|]. split; [|done].
    rewrite (filter_all (λ x, e_chrom x ∉ take 0 (chrom :: chroms))); [done|].
    intros x _. simpl. apply not_elem_of_nil.
  - destruct (Hnth j chrom Hj) as (se' & m0' & m' & Hse' & Hm0' & Hm' & Hl).
    exists se', m0', m'. rewrite Nat.add_succ_r.
    split; [done|]. split; [|done].
    rewrite <- Hm0'. do 3 f_equal. rewrite list_filter_filter.
    apply list_filter_iff. intros x. simpl. rewrite not_elem_of_cons. tauto.
Qed.


Lemma blacklist_step (blacklist : string) (tab : frame) :
  (if bool_decide (blacklist ≠ "" ∧ (0 < len (select keep_contact tab))%nat)
   then remove_blacklist blacklist (select keep_contact tab)
   else Ok (select keep_contact tab))
  = if decide (filter_returns blacklist tab)
    then Ok {| columns := columns tab; rows := surviving blacklist tab |}
    else Raise KeyError.
Proof.
  unfold surviving, filter_returns. case_bool_decide as Hbl.
  - destruct Hbl as [Hne Hlen]. rewrite remove_blacklist_run. cbn [select rows].
    destruct (decide (keeps_anchors _ _)) as [Hk|Hk].
    + rewrite decide_True by tauto. by rewrite (decide_False (P := blacklist = "")).
    + rewrite decide_False; [done|]. intros [?|[?|?]]; [done|lia|done].
  - assert (blacklist = "" ∨ len (select keep_contact tab) = 0%nat) as Hskip.
    { destruct (decide (blacklist = "")) as [|Hne]; [by left|]. right.
      destruct (len (select keep_contact tab)) eqn:Hlen; [done|].
      exfalso. apply Hbl. split; [done|lia]. }
    rewrite decide_True by tauto.
    unfold select. f_equal. f_equal.
    destruct (decide (blacklist = "")) as [|Hne]; [done|].
    destruct Hskip as [|Hlen]; [done|].
    unfold len, select in Hlen. cbn [rows] in Hlen.
    by destruct (filter keep_contact (rows tab)).
Qed.

Lemma filter_returns_rows (blacklist : string) (f1 f2 : frame) :
  rows f1 = rows f2 → filter_returns blacklist f1 ↔ filter_returns blacklist f2.
Proof. intros Hrows. unfold filter_returns, len, select. cbn [rows]. by rewrite Hrows. Qed.

(** Lines 139-140 raise [KeyError] when the subtraction empties a side. *)
Lemma data2mtx_KeyError (config : config) (file : file_arg) (chrom_start_end : list (Z * Z))
    (verbose : bool) (cell_id : Z) (blacklist : string) (tab : frame) :
  read_contacts config file = Ok tab → ¬ filter_returns blacklist tab →
  data2mtx config file chrom_start_end verbose cell_id blacklist = Raise KeyError.
Proof.
  intros Hread Hno. unfold data2mtx. rewrite Hread. simpl.
  rewrite blacklist_step. by rewrite decide_False.
Qed.

Lemma data2mtx_m1_loop (config : config) (file : file_arg) (chrom_start_end : list (Z * Z))
    (verbose : bool) (cell_id : Z) (blacklist : string) (tab : frame) :
  read_contacts config file = Ok tab → "count" ∈ columns tab →
  filter_returns blacklist tab →
  data2mtx config file chrom_start_end verbose cell_id blacklist =
    (m1_list ← m1_loop chrom_start_end 0 (chrom_list config)
                 (entry_of (resolution config) <$> surviving blacklist tab);
     Ok (m1_list, cell_id)).
Proof.
  intros Hread Hcount Hfilter. unfold data2mtx. rewrite Hread. simpl.
  rewrite blacklist_step. rewrite decide_True by done. simpl.
  unfold count_values. simpl.
  rewrite bool_decide_eq_true_2 by done. simpl.
  unfold entries_of. simpl. by rewrite zip_with_fmap_r, zip_with_diag.
Qed.


(** A run that returns got through lines 139-140. *)
Lemma data2mtx_returns_filter (config : config) (file : file_arg)
    (chrom_start_end : list (Z * Z)) (verbose : bool) (cell_id : Z) (blacklist : string)
    (tab : frame) :
  read_contacts config file = Ok tab →
  is_ok (data2mtx config file chrom_start_end verbose cell_id blacklist) →
  filter_returns blacklist tab.
Proof.
  intros Hread [r Hrun].
  destruct (decide (filter_returns blacklist tab)) as [|Hno]; [done|].
  by rewrite (data2mtx_KeyError _ _ _ _ _ _ tab) in Hrun.
Qed.

(** What a returned matrix set is made of. *)
Lemma data2mtx_inv (config : config) (file : file_arg) (chrom_start_end : list (Z * Z))
    (verbose : bool) (cell_id : Z) (blacklist : string) (m1_list : list csr) (c : Z) :
  data2mtx config file chrom_start_end verbose cell_id blacklist = Ok (m1_list, c) →
  c = cell_id ∧
  length m1_list = length (chrom_list config) ∧
  ∃ tab, read_contacts config file = Ok tab ∧ "count" ∈ columns tab ∧
    ∀ (k : nat) (chrom : string), chrom_list config !! k = Some chrom →
      ∃ se m0 m,
        chrom_start_end !! k = Some se ∧
        csr_matrix (triples (entry_of (resolution config) <$>
                      filter (λ r, chrom1 r = chrom)
                        (filter (λ r, chrom1 r ∉ take k (chrom_list config))
                                (surviving blacklist tab))))
                   (se.2 - se.1, se.2 - se.1) = Ok m0 ∧
        csr_add m0 (transpose m0) = Ok m ∧
        m1_list !! k = Some m.
Proof.
  intros Hrun.
  destruct (read_contacts config file) as [tab|] eqn:Hread;
    [|by unfold data2mtx in Hrun; rewrite Hread in Hrun].
  assert (Hfilter : filter_returns blacklist tab).
  { apply (data2mtx_returns_filter config file chrom_start_end verbose cell_id); [done|].
    by eexists. }
  destruct (decide ("count" ∈ columns tab)) as [Hcount|Hcount].
  2:{ unfold data2mtx in Hrun. rewrite Hread in Hrun. simpl in Hrun.
      rewrite blacklist_step in Hrun. rewrite decide_True in Hrun by done.
      simpl in Hrun. unfold count_values in Hrun. simpl in Hrun.
      by rewrite bool_decide_eq_false_2 in Hrun. }
  rewrite (data2mtx_m1_loop _ _ _ _ _ _ tab) in Hrun by done.
  destruct (m1_loop _ _ _ _) as [ms|] eqn:Hloop; [|done].
  simpl in Hrun. injection Hrun as <- <-.
  destruct (m1_loop_spec _ _ _ _ _ Hloop) as [Hlen Hnth].
  split; [done|]. split; [done|]. exists tab. split; [done|]. split; [done|].
  intros k chrom Hk.
  destruct (Hnth k chrom Hk) as (se & m0 & m & Hse & Hm0 & Hm & Hl).
  exists se, m0, m. split; [done|]. split; [|done].
  rewrite <- Hm0. do 2 f_equal.
  rewrite (filter_fmap (entry_of (resolution config))
             (λ x, e_chrom x ∉ take k (chrom_list config))).
  by rewrite (filter_fmap (entry_of (resolution config)) (λ x, e_chrom x = chrom)).
Qed.

Lemma filter_none {A} (P : A → Prop) `{∀ x, Decision (P x)} (l : list A) :
  (∀ x, x ∈ l → ¬ P x) → filter P l = [].
Proof.
  induction l as [|x l IH]; intros HP; [done|]. rewrite filter_cons.
  rewrite decide_False by (apply HP; left). apply IH.
  intros y Hy. apply HP. by right.
Qed.






(** ** The default count *)

(** C6 (amended). The count column is defaulted only where [data2mtx] parses
    a file itself.  A table handed over by the whole-table or the chunked
    layout is used as it is: without a count column the task raises
    [KeyError].  A file named in the file list whose columns have no
    [count] is processed as the same table with the column added and every
    count equal to 1. *)
Theorem count_defaulted_only_for_files (config : config) (chrom_start_end : list (Z * Z))
    (verbose : bool) (cell_id : Z) (blacklist : string) (tab : frame) :
  "count" ∉ columns tab →
  data2mtx config (Table tab) chrom_start_end verbose cell_id blacklist = Raise KeyError
  ∧ (∀ file, read_named config file = Ok tab →
       data2mtx config (Path file) chrom_start_end verbose cell_id blacklist
       = data2mtx config (Table (assign_count tab)) chrom_start_end verbose cell_id blacklist)
  ∧ "count" ∈ columns (assign_count tab)
  ∧ Forall (λ r, count r = one) (rows (assign_count tab)).
Proof.
  intros Hno. split; [|split; [|split]].
  - unfold data2mtx. simpl. rewrite blacklist_step.
    destruct (decide (filter_returns blacklist tab)); [|done]. simpl.
    unfold count_values. simpl. by rewrite bool_decide_eq_false_2.
  - intros file Hread. unfold data2mtx, read_contacts. rewrite Hread. simpl.
    by rewrite (bool_decide_eq_false_2 ("count" ∈ columns tab)).
  - unfold assign_count. simpl. set_solver.
  - unfold assign_count. simpl. by apply Forall_fmap, Forall_true.
Qed.

(** ** The two layouts of [higashi_v1] *)

Lemma io_res_bind {E A B} (m : io E A) (f : A → io E B) :
  io_res (m ≫= f) = io_res m ≫= (λ a, io_res (f a)).
Proof. unfold mbind at 1, io_bind. by destruct (io_res m). Qed.

Lemma io_res_lift {E A} (r : result A) : io_res (lift (E := E) r) = r.
Proof. done. Qed.

Lemma reset_index_fresh (f : frame) :
  "index" ∉ columns f →
  reset_index f = Ok {| columns := "index" :: columns f; rows := rows f |}.
Proof.
  intros Hno. unfold reset_index.
  rewrite (bool_decide_eq_false_2 ("index" ∈ columns f)) by done.
  by rewrite (bool_decide_eq_false_2 ("index" ∈ columns f)).
Qed.

Lemma reset_index_again (f : frame) :
  "index" ∈ columns f → "level_0" ∉ columns f →
  reset_index f = Ok {| columns := "level_0" :: columns f; rows := rows f |}.
Proof.
  intros Hin Hno. unfold reset_index.
  rewrite (bool_decide_eq_true_2 ("index" ∈ columns f)) by done.
  by rewrite (bool_decide_eq_false_2 ("level_0" ∈ columns f)).
Qed.

(** [data2mtx] looks at the rows of a table and at whether it has a count
    column, and at nothing else of it. *)
Lemma data2mtx_Table_ext (config : config) (f1 f2 : frame) (chrom_start_end : list (Z * Z))
    (verbose : bool) (cell_id : Z) (blacklist : string) :
  rows f1 = rows f2 → ("count" ∈ columns f1 ↔ "count" ∈ columns f2) →
  data2mtx config (Table f1) chrom_start_end verbose cell_id blacklist
  = data2mtx config (Table f2) chrom_start_end verbose cell_id blacklist.
Proof.
  intros Hrows Hcount. unfold data2mtx. simpl. rewrite !blacklist_step.
  pose proof (filter_returns_rows blacklist f1 f2 Hrows) as Hfilter.
  destruct (decide (filter_returns blacklist f1)) as [H1|H1];
    [rewrite decide_True by tauto|rewrite decide_False by tauto; done].
  simpl.
  assert (surviving blacklist f1 = surviving blacklist f2) as ->.
  { unfold surviving. by rewrite Hrows. }
  unfold count_values. simpl.
  destruct (decide ("count" ∈ columns f1)) as [Hc|Hc].
  - rewrite !bool_decide_eq_true_2; [done|by apply Hcount|done].
  - rewrite !bool_decide_eq_false_2; [done| |done]. by rewrite <- Hcount.
Qed.

Lemma next_cell_num_app (n : Z) (l1 l2 : list Z) :
  next_cell_num n (l1 ++ l2) = next_cell_num (next_cell_num n l1) l2.
Proof. unfold next_cell_num. apply foldl_app. Qed.

Lemma result_bind_Ok {A B} (x : A) (f : A → result B) : Ok x ≫= f = f x.
Proof. done. Qed.

Lemma io_res_submit (task : future) (cell_id : Z) : io_res (submit task cell_id) = Ok task.
Proof. done. Qed.

Lemma io_res_mret {E A} (x : A) : io_res (mret (M := io E) x) = Ok x.
Proof. done. Qed.

(** The submissions of a flush (lines 215-219 and 228-232). *)
Lemma flush_loop_res (config : config) (chrom_start_end : list (Z * Z))
    (blacklist : string) (tab : frame) (l : list Z) :
  "index" ∈ columns tab → "level_0" ∉ columns tab →
  ∀ st : list future * Z,
  io_res (for_io (λ (st : list future * Z) cid,
      batch ← lift (reset_index (select (λ r, cell_id r = cid) tab));
      p ← submit (data2mtx config (Table batch) chrom_start_end false cid blacklist) cid;
      mret (st.1 ++ [p], Z.max st.2 (cid + 1))) st l)
  = Ok (st.1 ++ (task config chrom_start_end blacklist
                       ("level_0" :: columns tab) (rows tab) <$> l),
        next_cell_num st.2 l).
Proof.
  intros Hin Hno. induction l as [|c l IH]; intros st.
  { simpl. rewrite app_nil_r. by destruct st. }
  cbn [for_io]. rewrite io_res_bind.
  rewrite io_res_bind, io_res_lift.
  rewrite reset_index_again by done. cbn [select columns rows].
  rewrite result_bind_Ok, io_res_bind, io_res_submit, result_bind_Ok.
  rewrite io_res_mret, result_bind_Ok.
  rewrite IH. cbn [fst snd]. rewrite <- app_assoc. done.
Qed.

Lemma flush_res (config : config) (chrom_start_end : list (Z * Z)) (blacklist : string)
    (cols : list string) (cell_tab : list frame) (st : list future * Z) :
  cell_tab ≠ [] → Forall (λ f, columns f = cols) cell_tab →
  "index" ∉ cols → "level_0" ∉ cols →
  let B := mjoin (rows <$> cell_tab) in
  io_res (flush config chrom_start_end blacklist cell_tab st)
  = Ok (st.1 ++ (task config chrom_start_end blacklist
                      ("level_0" :: "index" :: cols) B <$> np_unique (cell_id <$> B)),
        next_cell_num st.2 (np_unique (cell_id <$> B))).
Proof.
  intros Hne Hcols Hidx Hlvl B. unfold flush.
  destruct cell_tab as [|f fs]; [done|].
  apply Forall_cons in Hcols as [Hf _].
  rewrite io_res_bind, io_res_lift. cbn [pd_concat].
  rewrite result_bind_Ok, reset_index_fresh by (simpl; by rewrite Hf).
  rewrite result_bind_Ok. cbn [columns rows].
  rewrite flush_loop_res.
  - cbn [columns rows]. by rewrite Hf.
  - simpl. by left.
  - simpl. rewrite Hf. by apply not_elem_of_cons.
Qed.

(** The submissions of the whole-table layout (lines 251-253). *)
Lemma whole_loop_res (config : config) (chrom_start_end : list (Z * Z))
    (blacklist : string) (data : frame) (l : list Z) :
  "index" ∉ columns data →
  ∀ p_list : list future,
  io_res (for_io (λ p_list cid,
      batch ← lift (reset_index (select (λ r, cell_id r = cid) data));
      p ← submit (data2mtx config (Table batch) chrom_start_end false cid blacklist) cid;
      mret (p_list ++ [p])) p_list l)
  = Ok (p_list ++ (task config chrom_start_end blacklist
                        ("index" :: columns data) (rows data) <$> l)).
Proof.
  intros Hno. induction l as [|c l IH]; intros p_list.
  { simpl. by rewrite app_nil_r. }
  cbn [for_io]. rewrite io_res_bind.
  rewrite io_res_bind, io_res_lift.
  rewrite reset_index_fresh by done. cbn [select columns rows].
  rewrite result_bind_Ok, io_res_bind, io_res_submit, result_bind_Ok.
  rewrite io_res_mret, result_bind_Ok.
  rewrite IH. rewrite <- app_assoc. done.
Qed.

(** *** Cells of a list of records *)

Lemma cell_rows_app (c : Z) (l1 l2 : list contact) :
  cell_rows c (l1 ++ l2) = cell_rows c l1 ++ cell_rows c l2.
Proof. apply filter_app. Qed.

Lemma cell_rows_absent (c : Z) (l : list contact) :
  c ∉ cell_id <$> l → cell_rows c l = [].
Proof.
  intros Hc. apply filter_none. intros r Hr Heq. apply Hc.
  apply list_elem_of_fmap. by exists r.
Qed.

Lemma cell_rows_present (c : Z) (l : list contact) :
  c ∈ cell_id <$> l → cell_rows c l ≠ [].
Proof.
  intros (r & -> & Hr)%list_elem_of_fmap Hnil.
  assert (r ∈ cell_rows (cell_id r) l) as Hin by (by apply list_elem_of_filter).
  rewrite Hnil in Hin. by apply elem_of_nil in Hin.
Qed.

Lemma cell_rows_same_cells (c : Z) (l1 l2 : list contact) :
  cell_rows c l1 = cell_rows c l2 → c ∈ cell_id <$> l1 → c ∈ cell_id <$> l2.
Proof.
  intros Heq (r & -> & Hr)%list_elem_of_fmap.
  assert (r ∈ cell_rows (cell_id r) l2) as [_ Hin]%list_elem_of_filter.
  { rewrite <- Heq. by apply list_elem_of_filter. }
  apply list_elem_of_fmap. by exists r.
Qed.

Lemma cell_rows_other (c L : Z) (l : list contact) :
  c ≠ L → cell_rows c (filter (λ r, cell_id r ≠ L) l) = cell_rows c l.
Proof.
  intros Hne. unfold cell_rows. rewrite list_filter_filter.
  apply list_filter_iff. intros r. split; [tauto|]. intros <-. done.
Qed.

Lemma cell_rows_idem (c : Z) (l : list contact) :
  cell_rows c (cell_rows c l) = cell_rows c l.
Proof.
  unfold cell_rows. rewrite list_filter_filter. apply list_filter_iff. tauto.
Qed.

Lemma cells_of_filter (P : contact → Prop) `{∀ r, Decision (P r)} (c : Z)
    (l : list contact) :
  c ∈ cell_id <$> filter P l → c ∈ cell_id <$> l.
Proof.
  intros (r & -> & [_ Hr]%list_elem_of_filter)%list_elem_of_fmap.
  apply list_elem_of_fmap. by exists r.
Qed.

Lemma cells_of_cell_rows (c L : Z) (l : list contact) :
  c ∈ cell_id <$> cell_rows L l → c = L.
Proof. by intros (r & -> & [Hr _]%list_elem_of_filter)%list_elem_of_fmap. Qed.

Lemma remove_dups_constant (x : Z) (l : list Z) :
  l ≠ [] → Forall (λ d, d = x) l → remove_dups l = [x].
Proof.
  induction l as [|a l IH]; intros Hne Hall; [done|].
  apply Forall_cons in Hall as [-> Hall]. simpl.
  destruct (decide_rel elem_of x l) as [Hin|Hnin].
  - apply IH; [|done]. intros ->. by apply elem_of_nil in Hin.
  - destruct l as [|b l]; [done|]. exfalso. apply Hnin.
    apply Forall_cons in Hall as [-> _]. left.
Qed.

(** A chunk with more than one distinct cell id holds an id that is not the
    id of its last row. *)
Lemma other_cell_in_chunk (L : Z) (l : list Z) :
  l ≠ [] → length (remove_dups l) ≠ 1%nat → ∃ d, d ∈ l ∧ d ≠ L.
Proof.
  intros Hne Hlen.
  destruct (decide (Forall (λ d, d = L) l)) as [Hall|Hnot].
  { rewrite (remove_dups_constant L) in Hlen by done. done. }
  apply not_Forall_Exists in Hnot; [|apply _].
  apply Exists_exists in Hnot as (d & Hd & Hneq). exists d. by split.
Qed.

Section contiguity.

Context (P front Rest : list contact) (last_row : contact).
Hypothesis Hcontig :
  contiguous (cell_id <$> (P ++ (front ++ [last_row]) ++ Rest)).

(** The id of the last row of a chunk with several ids is new. *)
Lemma last_cell_is_new (d : Z) :
  d ∈ cell_id <$> front ++ [last_row] → d ≠ cell_id last_row →
  cell_id last_row ∉ cell_id <$> P.
Proof.
  intros Hd Hne HL.
  assert (d ∈ cell_id <$> front) as Hfront.
  { rewrite fmap_app, elem_of_app in Hd. destruct Hd as [?|Hd]; [done|].
    simpl in Hd. apply list_elem_of_singleton in Hd. done. }
  apply list_elem_of_split in Hfront as (f1 & f2 & Hsplit).
  apply Hne. symmetry.
  apply (Hcontig ((cell_id <$> P) ++ f1) d
           (f2 ++ cell_id last_row :: (cell_id <$> Rest))).
  - rewrite !fmap_app, Hsplit. simpl. by rewrite <- !app_assoc.
  - apply elem_of_app. by left.
  - apply elem_of_app. right. left.
Qed.

(** A cell seen up to the last row of the chunk, other than the cell of
    that row, has no row after the chunk. *)
Lemma flushed_cell_is_complete (c : Z) :
  c ≠ cell_id last_row →
  c ∈ cell_id <$> P ++ front → c ∉ cell_id <$> Rest.
Proof.
  intros Hne Hbefore Hafter. apply Hne.
  apply (Hcontig (cell_id <$> P ++ front) (cell_id last_row) (cell_id <$> Rest));
    [|done..].
  rewrite !fmap_app. simpl. by rewrite <- !app_assoc.
Qed.

End contiguity.

Lemma buffer_rows (cs : list Z) (B P : list contact) (c : Z) :
  (∀ c, c ∈ cell_id <$> P → c ∈ cs ∨ c ∈ cell_id <$> B) →
  (∀ c, c ∈ cell_id <$> B → cell_rows c B = cell_rows c P) →
  c ∉ cs → cell_rows c B = cell_rows c P.
Proof.
  intros Hcover HB Hc.
  destruct (decide (c ∈ cell_id <$> B)) as [Hin|Hout]; [by apply HB|].
  rewrite (cell_rows_absent c B) by done.
  symmetry. apply cell_rows_absent. intros [?|?]%Hcover; done.
Qed.

Lemma join_snoc {A} (ls : list (list A)) (l : list A) :
  mjoin (ls ++ [l]) = mjoin ls ++ l.
Proof. rewrite join_app. simpl. by rewrite app_nil_r. Qed.

Section chunked_reader.

Context (cfg : config) (chrom_start_end : list (Z * Z)) (blacklist : string).
Context (cols : list string) (R : list contact).
Hypothesis Hindex : "index" ∉ cols.
Hypothesis Hlevel : "level_0" ∉ cols.
Hypothesis Hcontig : contiguous (cell_id <$> R).

(** A chunk with a single cell id is appended to the pending frames. *)
Lemma on_chunk_single (P : list contact) (chunk : frame) (rest : list frame)
    (st : list frame * (list future * Z)) :
  columns chunk = cols → rows chunk ≠ [] →
  chunk_inv cfg chrom_start_end blacklist cols R P (chunk :: rest) st →
  chunk_inv cfg chrom_start_end blacklist cols R (P ++ rows chunk) rest
            (st.1 ++ [chunk], st.2).
Proof.
  intros Hcols Hne
    (cs & Hp & Hn & Hnd & Hcol & Hnonempty & HcsB & Hcsrest & HcsP & Hcover & HB).
  set (B := mjoin (rows <$> st.1)) in *.
  assert (Hrest : ∀ c, c ∈ cs →
    (c ∉ cell_id <$> rows chunk) ∧ (c ∉ cell_id <$> mjoin (rows <$> rest))).
  { intros c Hc. specialize (Hcsrest c Hc). simpl in Hcsrest.
    rewrite fmap_app, elem_of_app in Hcsrest. tauto. }
  exists cs. cbn [fst snd]. rewrite fmap_app.
  change (rows <$> [chunk]) with [rows chunk]. rewrite join_snoc. fold B.
  split; [done|]. split; [done|]. split; [done|].
  split; [apply Forall_app; split; [done|by constructor]|].
  split; [intros _; by destruct (st.1)|].
  split.
  { intros c Hc. rewrite fmap_app, elem_of_app. intros [?|?].
    - by apply (HcsB c).
    - by destruct (Hrest c Hc). }
  split; [intros c Hc; by destruct (Hrest c Hc)|].
  split; [intros c Hc; rewrite fmap_app, elem_of_app; left; by apply HcsP|].
  split.
  { intros c. rewrite !fmap_app, !elem_of_app. intros [[?|?]%Hcover|?]; tauto. }
  intros c Hc. rewrite !cell_rows_app. f_equal.
  destruct (decide (c ∈ cs)) as [Hcs|Hcs]; [|by apply (buffer_rows cs)].
  exfalso. rewrite fmap_app, elem_of_app in Hc. destruct Hc as [?|?].
  - by apply (HcsB c).
  - by destruct (Hrest c Hcs).
Qed.

(** A chunk with several cell ids: every pending cell and every cell of the
    chunk but the last is flushed, and the rows of the last cell become the
    pending frame. *)
Lemma on_chunk_flush (P front : list contact) (last_row : contact) (chunk : frame)
    (rest : list frame) (st : list frame * (list future * Z)) :
  R = P ++ rows chunk ++ mjoin (rows <$> rest) →
  columns chunk = cols → rows chunk = front ++ [last_row] →
  length (remove_dups (cell_id <$> rows chunk)) ≠ 1%nat →
  chunk_inv cfg chrom_start_end blacklist cols R P (chunk :: rest) st →
  let L := cell_id last_row in
  let X := mjoin (rows <$> st.1) ++ filter (λ r, cell_id r ≠ L) (rows chunk) in
  let U := np_unique (cell_id <$> X) in
  chunk_inv cfg chrom_start_end blacklist cols R (P ++ rows chunk) rest
    ([select (λ r, cell_id r = L) chunk],
     (st.2.1 ++ (task cfg chrom_start_end blacklist
                      ("level_0" :: "index" :: cols) X <$> U),
      next_cell_num st.2.2 U)).
Proof.
  intros HR Hcols Hfront Hmany
    (cs & Hp & Hn & Hnd & Hcol & Hnonempty & HcsB & Hcsrest & HcsP & Hcover & HB) L X U.
  set (B := mjoin (rows <$> st.1)) in *.
  set (Rest := mjoin (rows <$> rest)) in *.
  assert (Hrest : ∀ c, c ∈ cs →
    (c ∉ cell_id <$> rows chunk) ∧ (c ∉ cell_id <$> Rest)).
  { intros c Hc. specialize (Hcsrest c Hc). simpl in Hcsrest.
    rewrite fmap_app, elem_of_app in Hcsrest. tauto. }
  assert (HcontigR :
    contiguous (cell_id <$> (P ++ (front ++ [last_row]) ++ Rest))).
  { rewrite <- Hfront, <- HR. exact Hcontig. }
  destruct (other_cell_in_chunk L (cell_id <$> rows chunk)) as (d & Hd & HdL);
    [rewrite Hfront; by destruct front|done|].
  assert (HLP : L ∉ cell_id <$> P).
  { apply (last_cell_is_new P front Rest last_row HcontigR d); [|done].
    by rewrite <- Hfront. }
  assert (HBP : ∀ c, c ∈ cell_id <$> B → c ∈ cell_id <$> P).
  { intros c Hc. by apply (cell_rows_same_cells c B P); [apply HB|]. }
  assert (HX : ∀ c, c ∈ cell_id <$> X → c ≠ L ∧ c ∈ cell_id <$> (P ++ front)).
  { intros c. unfold X. rewrite !fmap_app, !elem_of_app. intros [Hc|Hc].
    - split; [|left; by apply HBP]. intros ->. by apply HLP, HBP.
    - apply list_elem_of_fmap in Hc as (r & -> & [Hne Hr]%list_elem_of_filter).
      split; [done|]. right. apply list_elem_of_fmap. exists r. split; [done|].
      rewrite Hfront, elem_of_app in Hr. destruct Hr as [?|Hr]; [done|].
      apply list_elem_of_singleton in Hr as ->. done. }
  assert (HXrest : ∀ c, c ∈ cell_id <$> X → c ∉ cell_id <$> Rest).
  { intros c [Hne Hc]%HX.
    by apply (flushed_cell_is_complete P front Rest last_row HcontigR c). }
  assert (HXcs : ∀ c, c ∈ cell_id <$> X → c ∉ cs).
  { intros c Hc Hcs. unfold X in Hc. rewrite fmap_app, elem_of_app in Hc.
    destruct Hc as [Hc|Hc%cells_of_filter].
    - by apply (HcsB c).
    - by destruct (Hrest c Hcs). }
  assert (HXrows : ∀ c, c ∈ cell_id <$> X → cell_rows c X = cell_rows c R).
  { intros c Hc. destruct (HX c Hc) as [Hne _].
    rewrite HR. unfold X. rewrite !cell_rows_app.
    rewrite (cell_rows_other c L) by done.
    rewrite (cell_rows_absent c Rest) by (by apply HXrest).
    rewrite app_nil_r. f_equal. apply (buffer_rows cs); [done..|]. by apply HXcs. }
  assert (HU : ∀ c, c ∈ U ↔ c ∈ cell_id <$> X).
  { intros c. apply elem_of_np_unique. }
  exists (cs ++ U). cbn [fst snd].
  change (mjoin (rows <$> [select (λ r, cell_id r = L) chunk]))
    with (cell_rows L (rows chunk) ++ []).
  rewrite app_nil_r.
  split.
  { rewrite fmap_app, Hp. f_equal. apply Forall_fmap_ext_1. rewrite Forall_forall.
    intros c Hc%HU. unfold task. by rewrite (HXrows c Hc). }
  split; [by rewrite next_cell_num_app, Hn|].
  split.
  { apply NoDup_app. split; [done|]. split; [|apply NoDup_np_unique].
    intros c Hc Hu%HU. by apply (HXcs c). }
  split; [by repeat constructor|].
  split; [done|].
  split.
  { intros c [Hc|Hc%HU]%elem_of_app Hin%cells_of_cell_rows; subst c.
    - by apply HLP, HcsP.
    - by destruct (HX L Hc). }
  split.
  { intros c [Hc|Hc%HU]%elem_of_app.
    - by destruct (Hrest c Hc).
    - by apply HXrest. }
  split.
  { intros c [Hc|Hc%HU]%elem_of_app.
    - rewrite fmap_app, elem_of_app. left. by apply HcsP.
    - destruct (HX c Hc) as [_ Hin]. rewrite Hfront, app_assoc, fmap_app, elem_of_app.
      by left. }
  split.
  { intros c. rewrite elem_of_app, HU.
    rewrite fmap_app, elem_of_app. intros [[Hc|Hc]%Hcover|Hc].
    - by left; left.
    - left; right. unfold X. rewrite fmap_app, elem_of_app. by left.
    - apply list_elem_of_fmap in Hc as (r & -> & Hr).
      destruct (decide (cell_id r = L)) as [HrL|HrL].
      + right. apply list_elem_of_fmap. exists r. split; [done|].
        by apply list_elem_of_filter.
      + left; right. unfold X. rewrite fmap_app, elem_of_app. right.
        apply list_elem_of_fmap. exists r. split; [done|].
        by apply list_elem_of_filter. }
  intros c Hc%cells_of_cell_rows. subst c.
  rewrite cell_rows_idem, cell_rows_app.
  by rewrite (cell_rows_absent L P).
Qed.

Lemma on_chunk_inv (P : list contact) (chunk : frame) (rest : list frame)
    (st : list frame * (list future * Z)) :
  R = P ++ rows chunk ++ mjoin (rows <$> rest) →
  columns chunk = cols → rows chunk ≠ [] →
  chunk_inv cfg chrom_start_end blacklist cols R P (chunk :: rest) st →
  ∃ st', io_res (on_chunk cfg chrom_start_end blacklist st chunk) = Ok st' ∧
         chunk_inv cfg chrom_start_end blacklist cols R (P ++ rows chunk) rest st'.
Proof.
  intros HR Hcols Hne Hinv. unfold on_chunk. case_bool_decide as Hone.
  { eexists. split; [apply io_res_mret|]. by apply on_chunk_single. }
  destruct (last (rows chunk)) as [last_row|] eqn:Hlast.
  2:{ apply last_None in Hlast. done. }
  apply last_Some in Hlast as [front Hfront].
  rewrite io_res_bind, io_res_lift, result_bind_Ok, io_res_bind.
  assert (Hcol : Forall (λ f, columns f = cols) st.1).
  { by destruct Hinv as (cs & _ & _ & _ & Hcol & _). }
  rewrite (flush_res _ _ _ cols); [|by destruct (st.1)| |done|done].
  2:{ apply Forall_app. split; [done|]. by repeat constructor. }
  rewrite result_bind_Ok, io_res_mret. eexists. split; [done|].
  rewrite fmap_app.
  change (rows <$> [select (λ r, cell_id r ≠ cell_id last_row) chunk])
    with [filter (λ r, cell_id r ≠ cell_id last_row) (rows chunk)].
  rewrite join_snoc.
  by apply (on_chunk_flush P front last_row chunk rest st).
Qed.

Lemma chunks_inv (chunks : list frame) :
  ∀ (P : list contact) (st : list frame * (list future * Z)),
  R = P ++ mjoin (rows <$> chunks) →
  Forall (λ c, columns c = cols ∧ rows c ≠ []) chunks →
  chunk_inv cfg chrom_start_end blacklist cols R P chunks st →
  ∃ st', io_res (for_io (on_chunk cfg chrom_start_end blacklist) st chunks) = Ok st' ∧
         chunk_inv cfg chrom_start_end blacklist cols R R [] st'.
Proof.
  induction chunks as [|chunk chunks IH]; intros P st HR Hchunks Hinv.
  { simpl in HR. rewrite app_nil_r in HR. subst P. by exists st. }
  apply Forall_cons in Hchunks as [[Hcols Hne] Hchunks].
  destruct (on_chunk_inv P chunk chunks st) as (st1 & Hstep & Hinv1); [done..|].
  destruct (IH (P ++ rows chunk) st1) as (st' & Hloop & Hinv'); [|done..|].
  { rewrite HR. simpl. by rewrite app_assoc. }
  exists st'. split; [|done].
  cbn [for_io]. rewrite io_res_bind, Hstep. apply Hloop.
Qed.

Lemma chunk_inv_init (chunks : list frame) :
  chunk_inv cfg chrom_start_end blacklist cols R [] chunks ([], ([], 0)).
Proof.
  exists []. cbn [fst snd].
  split; [done|]. split; [done|]. split; [constructor|]. split; [constructor|].
  split; [done|].
  repeat split; intros c Hc; by apply elem_of_nil in Hc.
Qed.

(** The tasks of the chunked layout: one per cell id of the table, each on
    all the records of its cell. *)
Lemma structured_tasks (chunks : list frame) :
  read_csv_chunks (path_join (data_dir cfg) "data.txt") 5000000 = Ok chunks →
  R = mjoin (rows <$> chunks) → R ≠ [] →
  Forall (λ c, columns c = cols ∧ rows c ≠ []) chunks →
  ∃ cs, NoDup cs ∧ (∀ c, c ∈ cs ↔ c ∈ cell_id <$> R) ∧
    io_res (extract_structured cfg chrom_start_end blacklist)
    = aggregate (length (chrom_list cfg))
        (alloc (length (chrom_list cfg)) (next_cell_num 0 cs))
        (as_completed (task cfg chrom_start_end blacklist
                            ("level_0" :: "index" :: cols) R <$> cs)).
Proof.
  intros Hread HR Hne Hchunks.
  destruct (chunks_inv chunks [] ([], ([], 0))) as (st & Hloop & Hinv);
    [done|done|apply chunk_inv_init|].
  destruct Hinv
    as (cs & Hp & Hn & Hnd & Hcol & Hnonempty & HcsB & _ & HcsP & Hcover & HB).
  set (B := mjoin (rows <$> st.1)) in *.
  set (U := np_unique (cell_id <$> B)).
  assert (HU : ∀ c, c ∈ U ↔ c ∈ cell_id <$> B).
  { intros c. apply elem_of_np_unique. }
  exists (cs ++ U). split; [|split].
  - apply NoDup_app. split; [done|]. split; [|apply NoDup_np_unique].
    intros c Hc Hu%HU. by apply (HcsB c).
  - intros c. rewrite elem_of_app, HU. split.
    + intros [Hc|Hc]; [by apply HcsP|].
      by apply (cell_rows_same_cells c B R); [apply HB|].
    + apply Hcover.
  - unfold extract_structured. rewrite io_res_bind, io_res_lift, Hread, result_bind_Ok.
    rewrite io_res_bind, Hloop, result_bind_Ok.
    rewrite bool_decide_eq_true_2
      by (specialize (Hnonempty Hne); by destruct (st.1)).
    rewrite io_res_bind.
    rewrite (flush_res _ _ _ cols); [|by apply Hnonempty|done..].
    rewrite result_bind_Ok, io_res_lift. cbn [fst snd]. fold B. fold U.
    rewrite next_cell_num_app, <- Hn, fmap_app, <- Hp.
    do 3 f_equal. apply Forall_fmap_ext_1. rewrite Forall_forall.
    intros c Hc%HU. unfold task. by rewrite (HB c Hc).
Qed.

End chunked_reader.

(** *** The whole-table layout *)

Lemma whole_tasks (config : config) (chrom_start_end : list (Z * Z)) (blacklist : string)
    (data : frame) (m : Z) :
  read_table (path_join (data_dir config) "data.txt") true = Ok data →
  "index" ∉ columns data →
  np_max (np_unique (cell_id <$> rows data)) = Ok m →
  io_res (extract_whole config chrom_start_end blacklist)
  = aggregate (length (chrom_list config))
      (alloc (length (chrom_list config)) (m + 1))
      (as_completed (task config chrom_start_end blacklist
                          ("index" :: columns data) (rows data) <$> py_range (m + 1))).
Proof.
  intros Hread Hindex Hmax. unfold extract_whole.
  rewrite io_res_bind, io_res_lift, Hread, result_bind_Ok.
  rewrite io_res_bind, io_res_lift, Hmax, result_bind_Ok.
  rewrite io_res_bind, whole_loop_res by done.
  by rewrite result_bind_Ok, io_res_lift.
Qed.

(** *** Cell counts *)

Lemma foldl_max_spec (l : list Z) :
  ∀ x, foldl Z.max x l ∈ x :: l ∧ ∀ c, c ∈ x :: l → c ≤ foldl Z.max x l.
Proof.
  induction l as [|y l IH]; intros x; simpl.
  { split; [left|]. intros c Hc%list_elem_of_singleton. lia. }
  destruct (IH (x `max` y)) as [Hin Hle]. split.
  - apply elem_of_cons in Hin as [Hin|Hin]; [|by do 2 right].
    rewrite Hin. destruct (Z.max_spec x y) as [[_ ->]|[_ ->]]; [right|]; left.
  - intros c Hc.
    assert (c ≤ x `max` y ∨ c ∈ l) as [Hc'|Hc'].
    { apply elem_of_cons in Hc as [->|Hc]; [left; lia|].
      apply elem_of_cons in Hc as [->|Hc]; [left; lia|by right]. }
    + etrans; [exact Hc'|]. apply Hle. left.
    + apply Hle. by right.
Qed.

Lemma np_max_spec (l : list Z) (m : Z) :
  np_max l = Ok m → m ∈ l ∧ ∀ c, c ∈ l → c ≤ m.
Proof.
  destruct l as [|x l]; [done|]. simpl. intros [= <-]. apply foldl_max_spec.
Qed.

Lemma np_max_ok (l : list Z) : l ≠ [] → is_ok (np_max l).
Proof. destruct l; [done|]. intros _. by eexists. Qed.

Lemma next_cell_num_spec (cs : list Z) :
  ∀ n, n ≤ next_cell_num n cs ∧
       (∀ c, c ∈ cs → c + 1 ≤ next_cell_num n cs) ∧
       (next_cell_num n cs = n ∨ ∃ c, c ∈ cs ∧ next_cell_num n cs = c + 1).
Proof.
  unfold next_cell_num.
  induction cs as [|a cs IH]; intros n; simpl.
  { split; [lia|]. split; [|by left]. intros c Hc. by apply elem_of_nil in Hc. }
  destruct (IH (n `max` (a + 1))) as (Hle & Hall & Hor). split; [lia|]. split.
  - intros c [->|Hc]%elem_of_cons; [lia|by apply Hall].
  - destruct Hor as [Heq|(c & Hc & Heq)].
    + rewrite Heq. destruct (Z.max_spec n (a + 1)) as [[_ ->]|[_ ->]].
      * right. exists a. split; [left|done].
      * by left.
    + right. exists c. split; [by right|done].
Qed.

Lemma elem_of_py_range (n c : Z) : c ∈ py_range n ↔ 0 ≤ c < n.
Proof.
  unfold py_range. rewrite list_elem_of_fmap. split.
  - intros (k & -> & Hk%elem_of_seq). lia.
  - intros Hc. exists (Z.to_nat c). split; [lia|]. apply elem_of_seq. lia.
Qed.

Lemma NoDup_py_range (n : Z) : NoDup (py_range n).
Proof. apply np_arange_NoDup. Qed.

(** *** Completed tasks *)

Lemma Permutation_fmap_inv {A B} (f : A → B) (l1 : list B) (l2 : list A) :
  l1 ≡ₚ f <$> l2 → ∃ l3, l1 = f <$> l3 ∧ l2 ≡ₚ l3.
Proof.
  intros (l3 & -> & Hl3)%(Permutation_map_inv f). by exists l3.
Qed.

Lemma tasks_done (n : nat) (T : Z → future) (l : list Z) :
  (∀ c, c ∈ l → ∃ ms, T c = Ok (ms, c) ∧ length ms = n) →
  ∃ done : list (list csr * Z),
    T <$> l = Ok <$> done ∧ done.*2 = l ∧ Forall (λ r, length r.1 = n) done.
Proof.
  induction l as [|c l IH]; intros Hok.
  { exists []. by repeat split. }
  destruct (Hok c) as (ms & HT & Hlen); [left|].
  destruct IH as (done & Hdone & Hids & Hlens).
  { intros c' Hc'. apply Hok. by right. }
  exists ((ms, c) :: done). rewrite !fmap_cons, HT, Hdone, Hids.
  split; [done|]. split; [done|]. by constructor.
Qed.

(** The result of aggregating completed tasks of distinct cells. *)
Lemma aggregate_cells (n : nat) (cell_num : Z) (done : list (list csr * Z)) :
  NoDup done.*2 → (∀ c, c ∈ done.*2 → 0 ≤ c < cell_num) →
  Forall (λ r, length r.1 = n) done →
  ∃ g, aggregate n (alloc n cell_num) (Ok <$> done) = Ok g ∧
       grid n (Z.to_nat cell_num) g ∧
       ∀ i k, (i < n)%nat → (k < Z.to_nat cell_num)%nat →
         (∀ r, r ∈ done → r.2 = Z.of_nat k → cell_at g i k = Mtx <$> r.1 !! i) ∧
         (Z.of_nat k ∉ done.*2 → cell_at g i k = Some Int0).
Proof.
  intros Hnd Hrange Hlen.
  set (N := Z.to_nat cell_num).
  assert (Hok : Forall (λ r, length r.1 = n ∧ 0 ≤ r.2 < Z.of_nat N) done).
  { rewrite Forall_forall in Hlen |- *. intros r Hr. split; [by apply Hlen|].
    assert (0 ≤ r.2 < cell_num) by (apply Hrange, list_elem_of_fmap; eauto). lia. }
  pose proof (alloc_grid n cell_num) as Hg. fold N in Hg.
  exists (foldl put (alloc n cell_num) done).
  split; [by apply (aggregate_put n N)|].
  destruct (foldl_put_spec n N done _ Hg Hok Hnd) as [Hg' Hcells].
  split; [done|]. intros i k Hi Hk.
  destruct (Hcells i k Hi Hk) as [Hin Hout]. split; [done|].
  intros Hnot. rewrite Hout by done. by apply cell_at_alloc.
Qed.

(** X7. Where the two layouts agree: on a table in which the rows of each cell
    are contiguous and every cell id below the cell count has a row, read in
    non-empty chunks, with no column named [index] or [level_0], and whose
    tasks all succeed, the chunked layout and the whole-table layout leave
    the same [mtx_all_list], whatever the order of completion, and every
    entry of it is a matrix. *)
Theorem layouts_agree_when_every_cell_has_rows (config : config)
    (chrom_start_end : list (Z * Z)) (blacklist : string)
    (data : frame) (chunks : list frame) (N : Z) :
  (∀ l, as_completed l ≡ₚ l) →
  read_table (path_join (data_dir config) "data.txt") true = Ok data →
  read_csv_chunks (path_join (data_dir config) "data.txt") 5000000 = Ok chunks →
  rows data = mjoin (rows <$> chunks) →
  Forall (λ c, columns c = columns data ∧ rows c ≠ []) chunks →
  "index" ∉ columns data → "level_0" ∉ columns data →
  contiguous (cell_id <$> rows data) →
  0 < N → (∀ c, c ∈ cell_id <$> rows data ↔ 0 ≤ c < N) →
  (∀ c, 0 ≤ c < N →
     is_ok (task config chrom_start_end blacklist
                 ("index" :: columns data) (rows data) c)) →
  ∃ g, io_res (extract_structured config chrom_start_end blacklist) = Ok g ∧
       io_res (extract_whole config chrom_start_end blacklist) = Ok g ∧
       ∀ i k, (i < length (chrom_list config))%nat → (k < Z.to_nat N)%nat →
         ∃ m, cell_at g i k = Some (Mtx m).
Proof.
  intros Hperm Hread Hchunks HR Hch Hidx Hlvl Hcontig HN Hids Hok.
  set (n := length (chrom_list config)).
  set (T := task config chrom_start_end blacklist ("index" :: columns data) (rows data)).
  assert (H0in : 0 ∈ cell_id <$> rows data) by (apply Hids; lia).
  assert (Hne : rows data ≠ []).
  { intros Hnil. rewrite Hnil in H0in. by apply elem_of_nil in H0in. }
  destruct (structured_tasks config chrom_start_end blacklist (columns data) (rows data)
              Hidx Hlvl Hcontig chunks Hchunks HR Hne Hch) as (cs & Hnd & Hcs & ->).
  assert (Hcsr : ∀ c, c ∈ cs ↔ 0 ≤ c < N) by (intros c; by rewrite Hcs).
  (* the cell count *)
  assert (next_cell_num 0 cs = N) as ->.
  { destruct (next_cell_num_spec cs 0) as (Hle & Hall & Hor).
    assert (N ≤ next_cell_num 0 cs).
    { specialize (Hall (N - 1)). rewrite Hcsr in Hall. lia. }
    destruct Hor as [Heq|(c & Hc%Hcsr & Heq)]; lia. }
  destruct (np_max_ok (np_unique (cell_id <$> rows data))) as [m Hm].
  { intros Hnil. apply elem_of_np_unique in H0in. rewrite Hnil in H0in.
    by apply elem_of_nil in H0in. }
  rewrite (whole_tasks _ _ _ data m) by done.
  assert (m + 1 = N) as ->.
  { destruct (np_max_spec _ _ Hm) as [Hin Hmax].
    apply elem_of_np_unique, Hids in Hin.
    specialize (Hmax (N - 1)). rewrite elem_of_np_unique, Hids in Hmax. lia. }
  (* the tasks *)
  assert (task config chrom_start_end blacklist
               ("level_0" :: "index" :: columns data) (rows data) <$> cs
          = T <$> cs) as ->.
  { apply Forall_fmap_ext_1. rewrite Forall_forall. intros c _.
    apply data2mtx_Table_ext; [done|]. simpl.
    rewrite !elem_of_cons. split; [intros [?|?]|intros ?]; [done|done|by right]. }
  fold T.
  assert (Hperm_cs : cs ≡ₚ py_range N).
  { apply NoDup_Permutation; [done|apply NoDup_py_range|].
    intros c. by rewrite Hcsr, elem_of_py_range. }
  destruct (tasks_done n T cs) as (done & Hdone & Hdids & Hlen).
  { intros c Hc%Hcsr. destruct (Hok c Hc) as [[ms c'] HT].
    assert (c' = c ∧ length ms = n) as [-> Hl].
    { unfold task in HT.
      by destruct (data2mtx_inv _ _ _ _ _ _ _ _ HT) as (-> & Hl & _). }
    exists ms. split; [exact HT|done]. }
  destruct (Permutation_fmap_inv Ok (as_completed (T <$> cs)) done)
    as (a1 & -> & Ha1); [by rewrite Hperm, Hdone|].
  destruct (Permutation_fmap_inv Ok (as_completed (T <$> py_range N)) done)
    as (a2 & -> & Ha2); [by rewrite Hperm, <- Hperm_cs, Hdone|].
  assert (Hspec : ∀ a, done ≡ₚ a →
    ∃ g, aggregate n (alloc n N) (Ok <$> a) = Ok g ∧ grid n (Z.to_nat N) g ∧
      ∀ i k, (i < n)%nat → (k < Z.to_nat N)%nat →
        ∀ r, r ∈ done → r.2 = Z.of_nat k → cell_at g i k = Mtx <$> r.1 !! i).
  { intros a Ha. destruct (aggregate_cells n N a) as (g & Hg & Hgrid & Hcells).
    - by rewrite <- Ha, Hdids.
    - intros c. rewrite <- Ha, Hdids. apply Hcsr.
    - by rewrite <- Ha.
    - exists g. split; [done|]. split; [done|]. intros i k Hi Hk r Hr.
      apply Hcells; [done..|]. by rewrite <- Ha. }
  destruct (Hspec a1 Ha1) as (g1 & Hg1 & Hgrid1 & Hcells1).
  destruct (Hspec a2 Ha2) as (g2 & Hg2 & Hgrid2 & Hcells2).
  assert (Hcell : ∀ k, (k < Z.to_nat N)%nat → ∃ r, r ∈ done ∧ r.2 = Z.of_nat k).
  { intros k Hk. assert (Z.of_nat k ∈ done.*2) as Hin.
    { rewrite Hdids. apply Hcsr. lia. }
    apply list_elem_of_fmap in Hin as (r & Hr & Hin). by exists r. }
  exists g1. split; [done|]. split.
  - change (aggregate n (alloc n N) (Ok <$> a2) = Ok g1). rewrite Hg2. f_equal. apply (grid_eq n (Z.to_nat N)); [done..|].
    intros i k Hi Hk. destruct (Hcell k Hk) as (r & Hr & Hrk).
    by rewrite (Hcells1 i k Hi Hk r), (Hcells2 i k Hi Hk r).
  - intros i k Hi Hk. destruct (Hcell k Hk) as (r & Hr & Hrk).
    rewrite (Hcells1 i k Hi Hk r) by done.
    rewrite Forall_forall in Hlen.
    destruct (lookup_lt_is_Some_2 r.1 i) as [m' Hm']; [rewrite Hlen; done|].
    exists m'. by rewrite Hm'.
Qed.

(** A table sorted by cell id has the rows of each cell contiguous. *)
Lemma sorted_contiguous (ids : list Z) : StronglySorted Z.le ids → contiguous ids.
Proof.
  intros Hsorted before d after -> c Hbefore Hafter.
  apply StronglySorted_app in Hsorted as (Hle & _ & Htail).
  apply StronglySorted_inv in Htail as [_ Hd]. rewrite Forall_forall in Hd.
  assert (c ≤ d) by (apply (Hle c d); [done|left]).
  assert (d ≤ c) by (by apply Hd).
  lia.
Qed.

(** *** Absent cells in the whole-table layout *)

Lemma tasks_done_result (T : Z → future) (l : list Z) (done : list (list csr * Z)) :
  T <$> l = Ok <$> done → done.*2 = l → ∀ r, r ∈ done → T r.2 = Ok r.
Proof.
  intros HT Hids r [j Hj]%list_elem_of_lookup.
  assert ((T <$> l) !! j = Some (T r.2)) as Hl.
  { by rewrite <- Hids, <- list_fmap_compose, list_lookup_fmap, Hj. }
  rewrite HT, list_lookup_fmap, Hj in Hl. simpl in Hl. by injection Hl as <-.
Qed.



Lemma m1_loop_listed (chrom_start_end : list (Z * Z)) (chroms : list string)
    (Q : entry → Prop) `{∀ x, Decision (Q x)} :
  (∀ x, e_chrom x ∈ chroms → Q x) →
  ∀ (i : nat) (arr : list entry),
  m1_loop chrom_start_end i chroms (filter Q arr) = m1_loop chrom_start_end i chroms arr.
Proof.
  induction chroms as [|c chroms IH]; intros HQ i arr; [done|].
  cbn [m1_loop].
  destruct (py_getitem chrom_start_end i) as [se|e]; [|done]. simpl.
  assert (filter (λ x, e_chrom x = c) (filter Q arr) = filter (λ x, e_chrom x = c) arr)
    as ->.
  { rewrite list_filter_filter. apply list_filter_iff. intros x. split; [tauto|].
    intros Hx. split; [done|]. apply HQ. rewrite Hx. left. }
  destruct (csr_matrix _ _) as [m0|e]; [|done]. simpl.
  destruct (csr_add _ _) as [m|e]; [|done]. simpl.
  assert (filter (λ x, ¬ e_chrom x = c) (filter Q arr)
          = filter Q (filter (λ x, ¬ e_chrom x = c) arr)) as ->.
  { rewrite !list_filter_filter. apply list_filter_iff. tauto. }
  rewrite IH; [done|]. intros x Hx. apply HQ. by right.
Qed.

Lemma surviving_select (blacklist : string) (Q : contact → Prop) `{∀ r, Decision (Q r)}
    (tab : frame) :
  surviving blacklist (select Q tab) = filter Q (surviving blacklist tab).
Proof.
  unfold surviving, select. cbn [rows].
  destruct (decide (blacklist = "")); rewrite !list_filter_filter;
    apply list_filter_iff; tauto.
Qed.

(** X1. [data2mtx] ignores the records of the chromosomes that [chrom_list]
    does not name, as far as they do not decide whether the blacklist filter
    raises: when lines 139-140 get through on the table exactly when they do
    on the table with these records removed, [data2mtx] returns the same
    matrices on both, or raises the same exception. *)
Theorem data2mtx_ignores_unlisted_chromosomes (config : config) (tab : frame)
    (chrom_start_end : list (Z * Z)) (verbose : bool) (cell_id : Z) (blacklist : string) :
  (filter_returns blacklist (select (λ r, chrom1 r ∈ chrom_list config) tab)
   ↔ filter_returns blacklist tab) →
  data2mtx config (Table (select (λ r, chrom1 r ∈ chrom_list config) tab))
           chrom_start_end verbose cell_id blacklist
  = data2mtx config (Table tab) chrom_start_end verbose cell_id blacklist.
Proof.
  intros Hsame.
  destruct (decide (filter_returns blacklist tab)) as [Hfilter|Hfilter].
  2:{ rewrite (data2mtx_KeyError _ (Table tab) _ _ _ _ tab) by done.
      apply (data2mtx_KeyError _ _ _ _ _ _
               (select (λ r, chrom1 r ∈ chrom_list config) tab)); [done|tauto]. }
  destruct (decide ("count" ∈ columns tab)) as [Hcount|Hcount].
  - rewrite (data2mtx_m1_loop _ (Table tab) _ _ _ _ tab) by done.
    rewrite (data2mtx_m1_loop _ (Table (select (λ r, chrom1 r ∈ chrom_list config) tab))
               _ _ _ _ (select (λ r, chrom1 r ∈ chrom_list config) tab));
      [|done|done|tauto].
    rewrite surviving_select.
    rewrite <- (m1_loop_listed chrom_start_end (chrom_list config)
                  (λ x, e_chrom x ∈ chrom_list config) (λ x Hx, Hx) 0
                  (entry_of (resolution config) <$> surviving blacklist tab)).
    rewrite (filter_fmap (entry_of (resolution config))
               (λ x, e_chrom x ∈ chrom_list config)).
    reflexivity.
  - unfold data2mtx. simpl. rewrite !blacklist_step.
    rewrite !decide_True by tauto. simpl.
    unfold count_values. simpl. by rewrite !bool_decide_eq_false_2.
Qed.


(** X2. When [chrom_list] names a chromosome a second time, the matrix
    returned at the later position stores no entry: the records of the
    chromosome were taken out of the arrays at its first position (lines
    160-163). *)
Theorem repeated_chromosome_gets_no_record (config : config) (file : file_arg)
    (chrom_start_end : list (Z * Z)) (verbose : bool) (cell_id : Z) (blacklist : string)
    (m1_list : list csr) (c : Z) (k : nat) (chrom : string) :
  data2mtx config file chrom_start_end verbose cell_id blacklist = Ok (m1_list, c) →
  chrom_list config !! k = Some chrom → chrom ∈ take k (chrom_list config) →
  ∃ m, m1_list !! k = Some m ∧ data m = ∅.
Proof.
  intros Hrun Hk Hseen.
  destruct (data2mtx_inv _ _ _ _ _ _ _ _ Hrun) as (_ & _ & tab & _ & _ & Hnth).
  destruct (Hnth k chrom Hk) as (se & m0 & m & _ & Hm0 & Hm & Hl).
  exists m. split; [done|].
  apply (csr_add_transpose_empty m0); [|done].
  rewrite (filter_none (λ r, chrom1 r = chrom)) in Hm0.
  - unfold csr_matrix in Hm0. repeat case_bool_decide; try done.
    by injection Hm0 as <-.
  - intros r [Hr _]%list_elem_of_filter Hc. apply Hr. by rewrite Hc.
Qed.




(** ** The order of submissions and saves *)

Lemma io_log_bind {E A B} (m : io E A) (f : A → io E B) :
  io_log (m ≫= f)
  = io_log m ++ match io_res m with Ok a => io_log (f a) | Raise _ => [] end.
Proof. unfold mbind, io_bind. destruct (io_res m); simpl; by rewrite ?app_nil_r. Qed.

Lemma io_log_lift_bind {E A B} (r : result A) (f : A → io E B) :
  io_log (lift r ≫= f) = match r with Ok a => io_log (f a) | Raise _ => [] end.
Proof. by destruct r. Qed.

Lemma io_res_bind_Ok {E A B} (m : io E A) (f : A → io E B) (b : B) :
  io_res (m ≫= f) = Ok b → ∃ a, io_res m = Ok a ∧ io_res (f a) = Ok b.
Proof. rewrite io_res_bind. destruct (io_res m) as [a|e]; [|done]. by exists a. Qed.

Lemma for_result_inv {S X} (P : S → Prop) (body : S → X → result S) (l : list X) :
  (∀ s x s', P s → body s x = Ok s' → P s') →
  ∀ s s', P s → for_result body s l = Ok s' → P s'.
Proof.
  intros Hbody. induction l as [|x l IH]; intros s s' Hs Hrun.
  { by injection Hrun as <-. }
  simpl in Hrun. destruct (body s x) as [s1|e] eqn:Hstep; [|done].
  simpl in Hrun. eapply IH; [|exact Hrun]. by eapply Hbody.
Qed.

Lemma store_length (n : nat) (all g : list (list slot)) (mtx_list : list csr) (c : Z) :
  store n all mtx_list c = Ok g → length g = length all.
Proof.
  unfold store.
  apply (for_result_inv (λ s, length s = length all)); [|done].
  intros s i s' Hs Hstep.
  destruct (py_getitem mtx_list i); [|done]. simpl in Hstep.
  destruct (py_getitem s i); [|done]. simpl in Hstep.
  destruct (py_setitem _ _ _); [|done]. simpl in Hstep.
  injection Hstep as <-. by rewrite length_insert.
Qed.

Lemma aggregate_length (n : nat) (all g : list (list slot)) (done : list future) :
  aggregate n all done = Ok g → length g = length all.
Proof.
  unfold aggregate.
  apply (for_result_inv (λ s, length s = length all)); [|done].
  intros s p s' Hs Hstep. destruct p as [r|e]; [|done]. simpl in Hstep.
  apply store_length in Hstep. congruence.
Qed.

Lemma for_io_submits {S X} (body : S → X → io event S) (l : list X) :
  (∀ s x, ∃ ids, io_log (body s x) = Submit <$> ids) →
  ∀ s, ∃ ids, io_log (for_io body s l) = Submit <$> ids.
Proof.
  intros Hbody. induction l as [|x l IH]; intros s; [by exists []|].
  cbn [for_io]. rewrite io_log_bind.
  destruct (Hbody s x) as [ids1 ->].
  destruct (io_res (body s x)) as [s1|e].
  - destruct (IH s1) as [ids2 ->]. exists (ids1 ++ ids2). by rewrite fmap_app.
  - exists ids1. by rewrite app_nil_r.
Qed.

Lemma submit_loop_submits (l : list Z) (f : Z → result frame) (T : frame → Z → future)
    {S} (next : S → future → Z → S) :
  ∀ s, ∃ ids, io_log (for_io (λ (s : S) cid,
      batch ← lift (f cid);
      p ← submit (T batch cid) cid;
      mret (next s p cid)) s l) = Submit <$> ids.
Proof.
  apply for_io_submits. intros s cid.
  destruct (f cid) as [batch|e]; [by exists [cid]|by exists []].
Qed.

Lemma flush_submits (config : config) (chrom_start_end : list (Z * Z)) (blacklist : string)
    (cell_tab : list frame) (st : list future * Z) :
  ∃ ids, io_log (flush config chrom_start_end blacklist cell_tab st) = Submit <$> ids.
Proof.
  unfold flush. rewrite io_log_lift_bind.
  destruct (pd_concat cell_tab ≫= reset_index) as [tab|e]; [|by exists []].
  apply (submit_loop_submits _
           (λ cid, reset_index (select (λ r, cell_id r = cid) tab))
           (λ batch cid, data2mtx config (Table batch) chrom_start_end false cid blacklist)
           (λ st p cid, (st.1 ++ [p], Z.max st.2 (cid + 1)))).
Qed.

Lemma extract_structured_submits (config : config) (chrom_start_end : list (Z * Z))
    (blacklist : string) :
  ∃ ids, io_log (extract_structured config chrom_start_end blacklist) = Submit <$> ids.
Proof.
  unfold extract_structured. rewrite io_log_lift_bind.
  destruct (read_csv_chunks _ _) as [reader|e]; [|by exists []].
  rewrite io_log_bind.
  destruct (for_io_submits (on_chunk config chrom_start_end blacklist) reader)
    with (s := ([], ([], 0)) : list frame * (list future * Z)) as [ids1 ->].
  { intros st chunk. unfold on_chunk. case_bool_decide; [by exists []|].
    rewrite io_log_lift_bind.
    destruct (last (rows chunk)) as [r|]; [|by exists []].
    rewrite io_log_bind.
    destruct (flush_submits config chrom_start_end blacklist
                (st.1 ++ [select (λ r0, cell_id r0 ≠ cell_id r) chunk]) st.2) as [ids ->].
    exists ids. by destruct (io_res _); rewrite ?app_nil_r. }
  destruct (io_res _) as [st|e]; [|exists ids1; by rewrite app_nil_r].
  rewrite io_log_bind.
  assert (∃ ids, io_log (if bool_decide (length st.1 ≠ 0%nat)
                         then flush config chrom_start_end blacklist st.1 st.2
                         else mret st.2) = Submit <$> ids) as [ids2 ->].
  { case_bool_decide; [apply flush_submits|by exists []]. }
  exists (ids1 ++ ids2). rewrite fmap_app.
  destruct (io_res _); simpl; by rewrite ?app_nil_r.
Qed.

Lemma extract_whole_submits (config : config) (chrom_start_end : list (Z * Z))
    (blacklist : string) :
  ∃ ids, io_log (extract_whole config chrom_start_end blacklist) = Submit <$> ids.
Proof.
  unfold extract_whole. rewrite io_log_lift_bind.
  destruct (read_table _ _) as [tab|e]; [|by exists []].
  rewrite io_log_lift_bind.
  destruct (np_max _) as [m|e]; [|by exists []].
  rewrite io_log_bind.
  destruct (submit_loop_submits (py_range (m + 1))
              (λ cid, reset_index (select (λ r, cell_id r = cid) tab))
              (λ batch cid, data2mtx config (Table batch) chrom_start_end false cid blacklist)
              (λ (p_list : list future) p cid, p_list ++ [p]) []) as [ids ->].
  exists ids. destruct (io_res _); simpl; by rewrite ?app_nil_r.
Qed.

Lemma extract_filelist_submits (config : config) (chrom_start_end : list (Z * Z))
    (blacklist : string) :
  ∃ ids, io_log (extract_filelist config chrom_start_end blacklist) = Submit <$> ids.
Proof.
  unfold extract_filelist. rewrite io_log_lift_bind.
  destruct (readlines _) as [lines|e]; [|by exists []].
  rewrite io_log_bind.
  match goal with |- context [for_io ?body ?s0 ?l] =>
    destruct (λ Hb, for_io_submits body l Hb s0) as [ids ->]
  end.
  { intros s cf. by exists [cf.1]. }
  exists ids. destruct (io_res _); simpl; by rewrite ?app_nil_r.
Qed.

Lemma extract_structured_length (config : config) (chrom_start_end : list (Z * Z))
    (blacklist : string) (g : list (list slot)) :
  io_res (extract_structured config chrom_start_end blacklist) = Ok g →
  length g = length (chrom_list config).
Proof.
  unfold extract_structured.
  intros (reader & _ & (st & _ & (st' & _ & Hagg)%io_res_bind_Ok)%io_res_bind_Ok)%io_res_bind_Ok.
  apply aggregate_length in Hagg. rewrite Hagg. apply length_replicate.
Qed.

Lemma extract_whole_length (config : config) (chrom_start_end : list (Z * Z))
    (blacklist : string) (g : list (list slot)) :
  io_res (extract_whole config chrom_start_end blacklist) = Ok g →
  length g = length (chrom_list config).
Proof.
  unfold extract_whole.
  intros (tab & _ & (m & _ & (p_list & _ & Hagg)%io_res_bind_Ok)%io_res_bind_Ok)%io_res_bind_Ok.
  apply aggregate_length in Hagg. rewrite Hagg. apply length_replicate.
Qed.

Lemma extract_filelist_length (config : config) (chrom_start_end : list (Z * Z))
    (blacklist : string) (g : list (list slot)) :
  io_res (extract_filelist config chrom_start_end blacklist) = Ok g →
  length g = length (chrom_list config).
Proof.
  unfold extract_filelist.
  intros (lines & _ & (p_list & _ & Hagg)%io_res_bind_Ok)%io_res_bind_Ok.
  apply aggregate_length in Hagg. rewrite Hagg. apply length_replicate.
Qed.

Lemma io_bind_Ok {E A B} (log : list E) (a : A) (f : A → io E B) :
  IO log (Ok a) ≫= f = IO (log ++ io_log (f a)) (io_res (f a)).
Proof. done. Qed.

Lemma io_bind_Raise {E A B} (log : list E) (e : exn) (f : A → io E B) :
  IO log (Raise e) ≫= f = IO log (Raise e).
Proof. done. Qed.

Lemma np_save_run (path : string) (arr : list slot) :
  np_save path arr = IO [Save path arr] (write_npy path arr).
Proof. done. Qed.

Lemma lookup_saves (config : config) (g : list (list slot)) (k : nat)
    (chrom : string) (arr : list slot) :
  chrom_list config !! k = Some chrom → g !! k = Some arr →
  saves config g !! k
  = Some (Save (path_join (path_join (temp_dir config) "raw")
                          (chrom +:+ "_sparse_adj.npy")) arr).
Proof. intros Hchrom Harr. unfold saves. by rewrite lookup_zip_with, Hchrom, Harr. Qed.

(** The final loop from chromosome [k] on: it calls [np.save] for each
    chromosome in turn and stops at the first write that fails. *)
Lemma save_loop (config : config) (g : list (list slot)) (n k : nat) :
  (k + n)%nat = length (chrom_list config) → length g = length (chrom_list config) →
  let run := for_io (λ _ i,
      chrom ← lift (py_getitem (chrom_list config) i);
      arr ← lift (py_getitem g i);
      np_save (path_join (path_join (temp_dir config) "raw")
                         (chrom +:+ "_sparse_adj.npy")) arr)
    () (seq k n) in
  (io_res run = Ok () ∧ io_log run = drop k (saves config g) ∧
   ∀ path arr, Save path arr ∈ drop k (saves config g) → write_npy path arr = Ok ())
  ∨ (∃ j path arr e,
       io_res run = Raise e ∧
       io_log run = take (S j - k) (drop k (saves config g)) ∧
       (k ≤ j)%nat ∧
       saves config g !! j = Some (Save path arr) ∧ write_npy path arr = Raise e ∧
       ∀ path' arr', Save path' arr' ∈ take (j - k) (drop k (saves config g)) →
                     write_npy path' arr' = Ok ()).
Proof.
  revert k. induction n as [|n IH]; intros k Hk Hg run.
  { left. unfold run. cbn [seq for_io]. rewrite drop_ge.
    - split; [done|]. split; [done|]. intros path arr Hin. by apply elem_of_nil in Hin.
    - unfold saves. rewrite length_zip_with. lia. }
  destruct (lookup_lt_is_Some_2 (chrom_list config) k) as [chrom Hchrom]; [lia|].
  destruct (lookup_lt_is_Some_2 g k) as [arr Harr]; [lia|].
  pose proof (lookup_saves config g k chrom arr Hchrom Harr) as Hsave.
  set (path := path_join (path_join (temp_dir config) "raw")
                         (chrom +:+ "_sparse_adj.npy")) in *.
  specialize (IH (S k) ltac:(lia) Hg). cbn zeta in IH.
  unfold run. cbn [seq for_io].
  match goal with |- context [(?step ≫= _)] =>
    assert (step = IO [Save path arr] (write_npy path arr)) as ->
  end.
  { unfold py_getitem. by rewrite Hchrom, Harr. }
  rewrite (drop_S _ _ _ Hsave).
  destruct (write_npy path arr) as [[]|e] eqn:Hwrite.
  - rewrite io_bind_Ok. cbn [io_res io_log].
    destruct IH as [(Hres & Hlog & Hall) | (j & p & a & e & Hres & Hlog & Hj & Hat & Hfail & Hbefore)].
    + left. rewrite Hres, Hlog. split; [done|]. split; [done|].
      intros path' arr' [[= -> ->]|Hin]%elem_of_cons; [done|by apply Hall].
    + right. exists j, p, a, e. rewrite Hres, Hlog.
      split; [done|]. split.
      { replace (S j - k)%nat with (S (S j - S k)) by lia. done. }
      split; [lia|]. split; [done|]. split; [done|].
      replace (j - k)%nat with (S (j - S k)) by lia. cbn [take].
      intros path' arr' [[= -> ->]|Hin]%elem_of_cons; [done|by apply Hbefore].
  - right. exists k, path, arr, e. rewrite io_bind_Raise. cbn [io_res io_log].
    split; [done|]. split.
    { replace (S k - k)%nat with 1%nat by lia. reflexivity. }
    split; [done|]. split; [done|]. split; [done|].
    rewrite Nat.sub_diag. intros path' arr' Hin. by apply elem_of_nil in Hin.
Qed.

Lemma save_all_run (config : config) (g : list (list slot)) :
  length g = length (chrom_list config) →
  (io_res (save_all config g) = Ok () ∧ io_log (save_all config g) = saves config g ∧
   ∀ path arr, Save path arr ∈ saves config g → write_npy path arr = Ok ())
  ∨ (∃ k path arr e,
       io_res (save_all config g) = Raise e ∧
       io_log (save_all config g) = take (S k) (saves config g) ∧
       saves config g !! k = Some (Save path arr) ∧ write_npy path arr = Raise e ∧
       ∀ path' arr', Save path' arr' ∈ take k (saves config g) →
                     write_npy path' arr' = Ok ()).
Proof.
  intros Hg. unfold save_all.
  destruct (save_loop config g (length (chrom_list config)) 0 eq_refl Hg)
    as [H1 | (k & path & arr & e & Hres & Hlog & _ & Hat & Hfail & Hbefore)].
  - left. by rewrite drop_0 in H1.
  - right. exists k, path, arr, e.
    rewrite drop_0, Nat.sub_0_r in Hlog. rewrite drop_0, Nat.sub_0_r in Hbefore. done.
Qed.

(** X4. [extract_table] calls [np.save] only when every task has been
    submitted and every result aggregated: its log is a list of submissions
    followed by the calls of [np.save].  When it returns, it has called
    [np.save] once per chromosome of [chrom_list], in the order of the list,
    with the array of that chromosome and the path
    [<temp_dir>/raw/<chrom>_sparse_adj.npy], and every write succeeded.
    When it raises, either no call of [np.save] was made, or the exception
    is the one of a write that failed: the arrays of the chromosomes before
    it were written, and none after it. *)
Theorem arrays_are_saved_after_all_tasks (config : config) :
  ∃ (ids : list Z) (saved : list event),
    io_log (extract_table config) = (Submit <$> ids) ++ saved ∧
    (∀ g, io_res (extract_table config) = Ok g →
       length g = length (chrom_list config) ∧
       saved = saves config g ∧
       ∀ path arr, Save path arr ∈ saved → write_npy path arr = Ok ()) ∧
    (∀ e, io_res (extract_table config) = Raise e →
       saved = [] ∨
       ∃ g k path arr,
         length g = length (chrom_list config) ∧
         saved = take (S k) (saves config g) ∧
         saves config g !! k = Some (Save path arr) ∧
         write_npy path arr = Raise e ∧
         ∀ path' arr', Save path' arr' ∈ take k (saves config g) →
                       write_npy path' arr' = Ok ()).
Proof.
  assert (Hrun : ∀ (E : io event (list (list slot))),
    (∃ ids, io_log E = Submit <$> ids) →
    (∀ g, io_res E = Ok g → length g = length (chrom_list config)) →
    let run := (mtx_all_list ← E; save_all config mtx_all_list;; mret mtx_all_list) in
    ∃ (ids : list Z) (saved : list event),
      io_log run = (Submit <$> ids) ++ saved ∧
      (∀ g, io_res run = Ok g →
         length g = length (chrom_list config) ∧
         saved = saves config g ∧
         ∀ path arr, Save path arr ∈ saved → write_npy path arr = Ok ()) ∧
      (∀ e, io_res run = Raise e →
         saved = [] ∨
         ∃ g k path arr,
           length g = length (chrom_list config) ∧
           saved = take (S k) (saves config g) ∧
           saves config g !! k = Some (Save path arr) ∧
           write_npy path arr = Raise e ∧
           ∀ path' arr', Save path' arr' ∈ take k (saves config g) →
                         write_npy path' arr' = Ok ())).
  { intros E [ids Hids] Hlen run. exists ids. unfold run.
    rewrite io_log_bind, io_res_bind, Hids.
    destruct (io_res E) as [g0|e0] eqn:HE.
    - rewrite result_bind_Ok, io_res_bind, io_log_bind.
      destruct (save_all_run config g0 (Hlen g0 eq_refl))
        as [(Hres & Hlog & Hall) | (k & path & arr & e & Hres & Hlog & Hat & Hfail & Hbefore)].
      + exists (saves config g0). rewrite Hres, Hlog.
        cbn [mbind res_bind mret io_ret io_log io_res]. rewrite app_nil_r.
        split; [done|]. split; [|done].
        intros g [= <-]. split; [by apply Hlen|]. by split.
      + exists (take (S k) (saves config g0)). rewrite Hres, Hlog.
        cbn [mbind res_bind]. rewrite app_nil_r.
        split; [done|]. split; [done|].
        intros e' [= <-]. right. exists g0, k, path, arr.
        split; [by apply Hlen|]. by repeat split.
    - exists []. cbn [mbind res_bind]. split; [done|]. split; [done|].
      intros e _. by left. }
  unfold extract_table.
  destruct (np_load _) as [chrom_start_end|e0].
  2:{ exists [], []. split; [done|]. split; [done|]. intros e _. by left. }
  cbn [lift]. unfold mbind at 1, io_bind at 1. cbn [io_res io_log app].
  case_bool_decide as Hv1.
  { destruct (structured config) as [[|]|].
    - apply Hrun; [apply extract_structured_submits|apply extract_structured_length].
    - apply Hrun; [apply extract_whole_submits|apply extract_whole_length].
    - apply Hrun; [apply extract_whole_submits|apply extract_whole_length]. }
  case_bool_decide as Hv2.
  { apply Hrun; [apply extract_filelist_submits|apply extract_filelist_length]. }
  exists [], []. split; [done|]. split; [done|]. intros e _. by left.
Qed.

(** ** The file-list format *)

Lemma lift_Ok_bind {E A B} (a : A) (f : A → io E B) : lift (Ok a) ≫= f = f a.
Proof. unfold lift. rewrite io_bind_Ok. by destruct (f a). Qed.

Lemma io_pure_bind {E A B} (a : A) (f : A → io E B) : IO [] (Ok a) ≫= f = f a.
Proof. apply (lift_Ok_bind a f). Qed.

Lemma io_mret_bind {E A B} (a : A) (f : A → io E B) : mret a ≫= f = f a.
Proof. apply (lift_Ok_bind a f). Qed.

Lemma filelist_loop (config : config) (chrom_start_end : list (Z * Z)) (blacklist : string)
    (l : list (Z * string)) :
  ∀ p_list : list future,
  for_io (λ p_list (cf : Z * string),
      p ← submit (data2mtx config (Path cf.2) chrom_start_end false cf.1 blacklist) cf.1;
      mret (p_list ++ [p])) p_list l
  = IO (Submit <$> l.*1)
       (Ok (p_list ++ ((λ cf : Z * string,
              data2mtx config (Path cf.2) chrom_start_end false cf.1 blacklist) <$> l))).
Proof.
  induction l as [|cf l IH]; intros p_list.
  { simpl. by rewrite app_nil_r. }
  cbn [for_io]. unfold submit. rewrite io_bind_Ok. cbn [io_log io_res mret io_ret app].
  rewrite io_bind_Ok, IH. cbn [io_log io_res]. by rewrite <- app_assoc.
Qed.

Lemma lookup_np_arange (n k : nat) :
  np_arange n !! k = if decide (k < n)%nat then Some (Z.of_nat k) else None.
Proof.
  unfold np_arange. rewrite list_lookup_fmap.
  destruct (decide (k < n)%nat) as [Hk|Hk].
  - by rewrite lookup_seq_lt.
  - by rewrite lookup_seq_ge by lia.
Qed.

Lemma elem_of_np_arange (n : nat) (c : Z) :
  c ∈ np_arange n ↔ 0 ≤ c < Z.of_nat n.
Proof.
  unfold np_arange. rewrite list_elem_of_fmap. split.
  - intros (k & -> & Hk%elem_of_seq). lia.
  - intros Hc. exists (Z.to_nat c). split; [lia|]. apply elem_of_seq. lia.
Qed.

(** X5. In the format [higashi_v2] the cell id of a file is the number of
    its line in [filelist.txt], from 0: one task is submitted per line, in
    the order of the file, on the path [line.strip()].  When the tasks
    succeed, [mtx_all_list] has one slot per line for every chromosome, and
    the slot of chromosome [i] and line [k] holds the [i]-th matrix of the
    task of line [k], whatever the order in which the tasks complete. *)
Theorem file_list_cells_are_line_numbers (config : config)
    (chrom_start_end : list (Z * Z)) (blacklist : string) (lines : list string) :
  (∀ l, as_completed l ≡ₚ l) →
  readlines (path_join (data_dir config) "filelist.txt") = Ok lines →
  (∀ k line, lines !! k = Some line →
     is_ok (data2mtx config (Path (str_strip line)) chrom_start_end false (Z.of_nat k)
              blacklist)) →
  ∃ g, extract_filelist config chrom_start_end blacklist
       = IO (Submit <$> np_arange (length lines)) (Ok g) ∧
    grid (length (chrom_list config)) (length lines) g ∧
    ∀ k line, lines !! k = Some line →
      ∃ ms, data2mtx config (Path (str_strip line)) chrom_start_end false (Z.of_nat k)
              blacklist = Ok (ms, Z.of_nat k) ∧
        ∀ i, (i < length (chrom_list config))%nat → cell_at g i k = Mtx <$> ms !! i.
Proof.
  intros Hperm Hread Hok.
  set (n := length (chrom_list config)).
  set (N := length lines).
  set (T := λ c : Z,
    match lines !! Z.to_nat c with
    | Some line => data2mtx config (Path (str_strip line)) chrom_start_end false c blacklist
    | None => Raise IndexError
    end).
  assert (Hp : (λ cf : Z * string,
                  data2mtx config (Path cf.2) chrom_start_end false cf.1 blacklist)
               <$> zip (np_arange (length (str_strip <$> lines))) (str_strip <$> lines)
               = T <$> np_arange N).
  { rewrite length_fmap. fold N. apply list_eq. intros k.
    rewrite !list_lookup_fmap. rewrite lookup_zip_with.
    rewrite lookup_np_arange, list_lookup_fmap.
    destruct (decide (k < N)%nat) as [Hk|Hk]; [|done].
    destruct (lookup_lt_is_Some_2 lines k Hk) as [line Hline].
    rewrite Hline. simpl. unfold T. by rewrite Nat2Z.id, Hline. }
  assert (HT : ∀ k line, lines !! k = Some line →
    ∃ ms, T (Z.of_nat k) = Ok (ms, Z.of_nat k) ∧ length ms = n).
  { intros k line Hline. unfold T. rewrite Nat2Z.id, Hline.
    destruct (Hok k line Hline) as [[ms c] Hrun].
    destruct (data2mtx_inv _ _ _ _ _ _ _ _ Hrun) as (-> & Hl & _).
    by exists ms. }
  destruct (tasks_done n T (np_arange N)) as (done & Hdone & Hdids & Hlen).
  { intros c Hc%elem_of_np_arange.
    destruct (lookup_lt_is_Some_2 lines (Z.to_nat c)) as [line Hline]; [unfold N in Hc; lia|].
    destruct (HT _ line Hline) as (ms & Hms & Hl). rewrite Z2Nat.id in Hms by lia.
    by exists ms. }
  destruct (Permutation_fmap_inv Ok (as_completed (T <$> np_arange N)) done)
    as (a & Ha & Hperm_a).
  { rewrite Hperm. unfold future in Hdone. by rewrite Hdone. }
  destruct (aggregate_cells n (Z.of_nat N) a) as (g & Hg & Hgrid & Hcells).
  { rewrite <- Hperm_a, Hdids. apply np_arange_NoDup. }
  { intros c. rewrite <- Hperm_a, Hdids. apply elem_of_np_arange. }
  { by rewrite <- Hperm_a. }
  rewrite Nat2Z.id in Hgrid, Hcells.
  exists g. split; [|split; [done|]].
  - unfold extract_filelist. rewrite Hread, lift_Ok_bind.
    rewrite filelist_loop, io_bind_Ok. cbn [app lift io_log io_res].
    rewrite Hp, Ha, app_nil_r. subst n N. rewrite length_fmap, Hg. do 2 f_equal.
    apply fst_zip. unfold np_arange. by rewrite !length_fmap, length_seq.
  - intros k line Hline.
    destruct (HT k line Hline) as (ms & Hms & Hl).
    exists ms. split; [unfold T in Hms; by rewrite Nat2Z.id, Hline in Hms|].
    intros i Hi.
    assert (Hk : (k < N)%nat) by (by eapply lookup_lt_Some).
    assert (Z.of_nat k ∈ done.*2) as Hin.
    { rewrite Hdids. apply elem_of_np_arange. lia. }
    apply list_elem_of_fmap in Hin as (r & Hrk & Hr).
    destruct (Hcells i k Hi Hk) as [Hcell _].
    rewrite (Hcell r); [| by rewrite <- Hperm_a | done].
    pose proof (tasks_done_result T _ _ Hdone Hdids r Hr) as Hres.
    rewrite <- Hrk, Hms in Hres. by injection Hres as <-.
Qed.

(** ** Empty tables *)

(** X8. A [data.txt] without records.  The whole-table layout raises
    [ValueError] (the maximum of no cell id, line 246) before it submits a
    task.  The chunked layout returns an empty array for every chromosome
    when the reader yields no chunk, and raises [IndexError] (line 210)
    when its first chunk has no row. *)
Theorem empty_table (config : config) (chrom_start_end : list (Z * Z))
    (blacklist : string) :
  (∀ l, as_completed l ≡ₚ l) →
  (∀ tab, read_table (path_join (data_dir config) "data.txt") true = Ok tab →
     rows tab = [] →
     extract_whole config chrom_start_end blacklist = IO [] (Raise ValueError))
  ∧ (read_csv_chunks (path_join (data_dir config) "data.txt") 5000000 = Ok [] →
     extract_structured config chrom_start_end blacklist
     = IO [] (Ok (replicate (length (chrom_list config)) [])))
  ∧ (∀ chunk rest,
       read_csv_chunks (path_join (data_dir config) "data.txt") 5000000
       = Ok (chunk :: rest) →
       rows chunk = [] →
       extract_structured config chrom_start_end blacklist = IO [] (Raise IndexError)).
Proof.
  intros Hperm. split; [|split].
  - intros tab Hread Hrows. unfold extract_whole.
    rewrite Hread, lift_Ok_bind, Hrows. reflexivity.
  - intros Hread. unfold extract_structured. rewrite Hread, lift_Ok_bind.
    cbn [for_io]. rewrite io_mret_bind. cbn [fst snd length].
    rewrite bool_decide_eq_false_2 by (intros Hne; by apply Hne).
    rewrite io_mret_bind. cbn [fst snd].
    assert (as_completed [] = []) as ->.
    { apply Permutation_nil_r. apply Hperm. }
    reflexivity.
  - intros chunk rest Hread Hrows. unfold extract_structured.
    rewrite Hread, lift_Ok_bind. cbn [for_io]. unfold on_chunk.
    rewrite Hrows. reflexivity.
Qed.

(** ** Reserved column names *)

Lemma reset_index_clash (f : frame) :
  "index" ∈ columns f → "level_0" ∈ columns f → reset_index f = Raise ValueError.
Proof.
  intros Hi Hl. unfold reset_index.
  rewrite (bool_decide_eq_true_2 ("index" ∈ columns f)) by done.
  by rewrite (bool_decide_eq_true_2 ("level_0" ∈ columns f)).
Qed.

Lemma np_unique_nonempty (l : list Z) : l ≠ [] → np_unique l ≠ [].
Proof.
  destruct l as [|x l]; [done|]. intros _ Hnil.
  assert (x ∈ np_unique (x :: l)) as Hin by (apply elem_of_np_unique; left).
  rewrite Hnil in Hin. by apply elem_of_nil in Hin.
Qed.

Lemma flush_rejects (config : config) (chrom_start_end : list (Z * Z)) (blacklist : string)
    (f : frame) (fs : list frame) (st : list future * Z) :
  "index" ∈ columns f ∨ "level_0" ∈ columns f →
  mjoin (rows <$> f :: fs) ≠ [] →
  flush config chrom_start_end blacklist (f :: fs) st = IO [] (Raise ValueError).
Proof.
  intros Hbad Hrows. unfold flush. cbn [pd_concat]. rewrite result_bind_Ok.
  set (tab0 := {| columns := columns f; rows := mjoin (rows <$> f :: fs) |}).
  assert (Hloop : ∀ tab, columns tab = "index" :: columns f ∨
                         columns tab = "level_0" :: columns f →
                         rows tab = rows tab0 →
    for_io (λ (st : list future * Z) cid,
        batch ← lift (reset_index (select (λ r, cell_id r = cid) tab));
        p ← submit (data2mtx config (Table batch) chrom_start_end false cid blacklist) cid;
        mret (st.1 ++ [p], Z.max st.2 (cid + 1)))
      st (np_unique (cell_id <$> rows tab))
    = IO [] (Raise ValueError) →
    lift (Ok tab) ≫= (λ tab,
      for_io (λ (st : list future * Z) cid,
        batch ← lift (reset_index (select (λ r, cell_id r = cid) tab));
        p ← submit (data2mtx config (Table batch) chrom_start_end false cid blacklist) cid;
        mret (st.1 ++ [p], Z.max st.2 (cid + 1)))
      st (np_unique (cell_id <$> rows tab)))
    = IO [] (Raise ValueError)).
  { intros tab _ _ Hl. by rewrite lift_Ok_bind. }
  assert (Hfirst : ∀ tab, "index" ∈ columns tab → "level_0" ∈ columns tab →
                          rows tab = rows tab0 →
    for_io (λ (st : list future * Z) cid,
        batch ← lift (reset_index (select (λ r, cell_id r = cid) tab));
        p ← submit (data2mtx config (Table batch) chrom_start_end false cid blacklist) cid;
        mret (st.1 ++ [p], Z.max st.2 (cid + 1)))
      st (np_unique (cell_id <$> rows tab))
    = IO [] (Raise ValueError)).
  { intros tab Hi Hl Hr.
    destruct (np_unique (cell_id <$> rows tab)) as [|c cs] eqn:Hu.
    { exfalso. apply (np_unique_nonempty (cell_id <$> rows tab)); [|done].
      rewrite Hr. simpl. intros Hnil. apply fmap_nil_inv in Hnil. done. }
    cbn [for_io]. rewrite reset_index_clash by done. reflexivity. }
  destruct (decide ("index" ∈ columns f)) as [Hi|Hi];
    destruct (decide ("level_0" ∈ columns f)) as [Hl|Hl].
  - rewrite (reset_index_clash tab0) by done. reflexivity.
  - rewrite (reset_index_again tab0) by done.
    rewrite lift_Ok_bind. apply Hfirst; [by right|by left|done].
  - rewrite (reset_index_fresh tab0) by done.
    rewrite lift_Ok_bind. apply Hfirst; [by left|by right|done].
  - by destruct Hbad.
Qed.

Lemma chunks_rejected (config : config) (chrom_start_end : list (Z * Z))
    (blacklist : string) (cols : list string) (chunks : list frame) :
  "index" ∈ cols ∨ "level_0" ∈ cols →
  Forall (λ c, columns c = cols ∧ rows c ≠ []) chunks →
  ∀ st : list frame * (list future * Z),
  Forall (λ f, columns f = cols) st.1 →
  for_io (on_chunk config chrom_start_end blacklist) st chunks
    = IO [] (Raise ValueError) ∨
  for_io (on_chunk config chrom_start_end blacklist) st chunks
    = IO [] (Ok (st.1 ++ chunks, st.2)).
Proof.
  intros Hbad Hchunks. induction Hchunks as [|chunk chunks [Hcols Hne] _ IH]; intros st Hst.
  { right. simpl. rewrite app_nil_r. by destruct st. }
  assert (Hstep :
    on_chunk config chrom_start_end blacklist st chunk = IO [] (Raise ValueError) ∨
    on_chunk config chrom_start_end blacklist st chunk
      = IO [] (Ok (st.1 ++ [chunk], st.2))).
  { unfold on_chunk. case_bool_decide as Hone; [by right|]. left.
    destruct (last (rows chunk)) as [last_row|] eqn:Hlast.
    2:{ apply last_None in Hlast. done. }
    rewrite lift_Ok_bind.
    destruct (other_cell_in_chunk (cell_id last_row) (cell_id <$> rows chunk))
      as (d & Hd & HdL); [by destruct (rows chunk)|done|].
    apply list_elem_of_fmap in Hd as (r & -> & Hr).
    set (tails := select (λ r, cell_id r ≠ cell_id last_row) chunk).
    assert (Htails : rows tails ≠ []).
    { intros Hnil. assert (r ∈ rows tails) as Hin by (by apply list_elem_of_filter).
      rewrite Hnil in Hin. by apply elem_of_nil in Hin. }
    destruct (st.1 ++ [tails]) as [|f fs] eqn:Happ.
    { by destruct (st.1). }
    rewrite flush_rejects; [reflexivity| |].
    + assert (Forall (λ f, columns f = cols) (f :: fs)) as Hall.
      { rewrite <- Happ. apply Forall_app. split; [done|]. by constructor. }
      apply Forall_cons in Hall as [-> _]. done.
    + rewrite <- Happ, fmap_app. change (rows <$> [tails]) with [rows tails].
      rewrite join_snoc. intros [_ ?]%app_eq_nil. done. }
  cbn [for_io]. destruct Hstep as [-> | ->]; [by left|].
  rewrite io_pure_bind.
  destruct (IH (st.1 ++ [chunk], st.2)) as [Hr|Hr].
  { cbn [fst]. apply Forall_app. split; [done|]. by constructor. }
  - left. by rewrite Hr.
  - right. rewrite Hr. cbn [fst snd]. by rewrite <- app_assoc.
Qed.

(** X9. The chunked layout raises [ValueError], and submits no task, on a
    table read in non-empty chunks that has a column named [index] or
    [level_0]: the two calls of [reset_index] (lines 214 and 217, or 227 and
    230) need both names to be free. *)
Theorem chunked_layout_rejects_index_columns (config : config)
    (chrom_start_end : list (Z * Z)) (blacklist : string)
    (cols : list string) (chunks : list frame) :
  read_csv_chunks (path_join (data_dir config) "data.txt") 5000000 = Ok chunks →
  chunks ≠ [] →
  Forall (λ c, columns c = cols ∧ rows c ≠ []) chunks →
  "index" ∈ cols ∨ "level_0" ∈ cols →
  extract_structured config chrom_start_end blacklist = IO [] (Raise ValueError).
Proof.
  intros Hread Hne Hchunks Hbad. unfold extract_structured.
  rewrite Hread, lift_Ok_bind.
  destruct (chunks_rejected config chrom_start_end blacklist cols chunks Hbad Hchunks
              ([], ([], 0))) as [-> | ->]; [constructor|reflexivity|].
  rewrite io_pure_bind. cbn [fst snd app].
  destruct chunks as [|f fs]; [done|].
  rewrite bool_decide_eq_true_2 by done.
  apply Forall_cons in Hchunks as [[Hcols Hrows] _].
  rewrite flush_rejects; [reflexivity|by rewrite Hcols|].
  simpl. intros [? _]%app_eq_nil. done.
Qed.

(** ** Files without a header *)

(** X10. A file of one cell read without a header that has fewer columns
    than [contact_header] names, none of its columns being named [count]:
    with [header_included] false the first names of [contact_header] are
    used and the count column is added with every count 1; without the key
    [header_included] the header must fit exactly and [data2mtx] raises
    [ValueError]. *)
Theorem headerless_file_with_fewer_columns (config : config) (file : string)
    (tab : frame) (names : list string) (chrom_start_end : list (Z * Z))
    (verbose : bool) (cell_id : Z) (blacklist : string) :
  read_table file false = Ok tab →
  contact_header config = Some names →
  (length (columns tab) < length names)%nat →
  "count" ∉ take (length (columns tab)) names →
  (header_included config = Some false →
     read_contacts config (Path file)
     = Ok (assign_count {| columns := take (length (columns tab)) names;
                           rows := rows tab |}))
  ∧ (header_included config = None →
     data2mtx config (Path file) chrom_start_end verbose cell_id blacklist
     = Raise ValueError).
Proof.
  intros Hread Hnames Hlen Hcount. split; intros Hh.
  - unfold read_contacts, read_named. rewrite Hh, Hread, Hnames. simpl.
    unfold set_columns. rewrite bool_decide_eq_true_2 by (rewrite length_take; lia).
    simpl. by rewrite bool_decide_eq_false_2.
  - unfold data2mtx, read_contacts, read_named. rewrite Hh, Hread, Hnames. simpl.
    unfold set_columns. rewrite bool_decide_eq_false_2 by lia. done.
Qed.

(** ** The cells of the chunked layout *)


(** ** Failed tasks *)

(** X19. When the results that complete first carry one matrix per
    chromosome and a cell id in [[0, cell_num)] and the next task to
    complete has raised, the aggregation loop raises the exception of that
    task (it is [p.result()] that raises it again), whatever completes
    after it; by X4 no array is saved then. *)
Theorem aggregate_stops_at_the_first_failed_task (n_chrom : nat) (cell_num : Z)
    (done : list (list csr * Z)) (e : exn) (rest : list future) :
  Forall (λ r, length r.1 = n_chrom ∧ 0 ≤ r.2 < cell_num) done →
  aggregate n_chrom (alloc n_chrom cell_num) ((Ok <$> done) ++ Raise e :: rest)
  = Raise e.
Proof.
  intros Hdone. unfold aggregate. rewrite for_result_app.
  pose proof (aggregate_put n_chrom (Z.to_nat cell_num) done (alloc n_chrom cell_num)
                (alloc_grid n_chrom cell_num)) as Hput.
  unfold aggregate in Hput. rewrite Hput; [done|].
  apply (Forall_impl _ _ _ Hdone). intros r [Hlen Hc]. split; [done|lia].
Qed.

End Properties.

Section SetupProperties.

Context `{Reference}.

Lemma n_bin_of_covers (size res : Z) :
  0 < res → ∃ w, n_bin_of size res = Returns w ∧ covers res size w.
Proof.
  intros Hres. unfold n_bin_of. rewrite bool_decide_eq_false_2 by lia.
  eexists. split; [done|]. unfold covers.
  pose proof (Z.mul_div_le (- size) res Hres).
  pose proof (Z.mul_succ_div_gt (- size) res Hres). lia.
Qed.

Lemma covers_bounds (res size w : Z) :
  0 < res → 0 ≤ size → covers res size w → 0 ≤ w ≤ size.
Proof. unfold covers. intros Hres Hsize [Hlo Hhi]. nia. Qed.

Lemma size_of_Some (tab : size_table) (chrom : string) (size : Z) :
  size_of tab chrom = Some size →
  ∃ row rest, filter (λ row : string * Z, row.1 = chrom) (size_rows tab) = row :: rest
              ∧ row.2 = size.
Proof.
  unfold size_of. destruct (filter _ _) as [|row rest]; [done|].
  simpl. intros [= <-]. by exists row, rest.
Qed.

Lemma size_of_None (tab : size_table) (chrom : string) :
  size_of tab chrom = None →
  filter (λ row : string * Z, row.1 = chrom) (size_rows tab) = [].
Proof. unfold size_of. by destruct (filter _ _). Qed.

Lemma get_row_Some (a : list (Z * Z)) (i : nat) (r : Z * Z) :
  a !! i = Some r → get_row a i = Returns r.
Proof. unfold get_row. by intros ->. Qed.

Lemma get_row_app (done rest : list (Z * Z)) (k : nat) :
  get_row (done ++ rest) (length done + k) = get_row rest k.
Proof.
  unfold get_row. rewrite lookup_app_r by lia.
  by replace (length done + k - length done)%nat with k by lia.
Qed.

Lemma insert_app_at (done rest : list (Z * Z)) (k : nat) (x : Z * Z) :
  <[(length done + k)%nat := x]> (done ++ rest) = done ++ <[k := x]> rest.
Proof.
  rewrite insert_app_r_alt by lia.
  by replace (length done + k - length done)%nat with k by lia.
Qed.

Lemma generate_loop (tab : size_table) (res : Z) (n : nat) (chroms : list string) :
  0 < res →
  ∀ (done : list (Z * Z)) (start : Z),
  (length done + length chroms)%nat = n →
  0 ≤ start → start + Z.of_nat (length chroms) * 2 ^ 53 < 2 ^ 63 →
  (∀ chrom, chrom ∈ chroms → ∃ size, size_of tab chrom = Some size ∧ 0 ≤ size < 2 ^ 53) →
  ∃ widths,
    for_outcome (λ chrom_start_end (ic : nat * string),
        let i := ic.1 in
        let chrom := ic.2 in
        size ← match filter (λ row : string * Z, row.1 = chrom) (size_rows tab) with
               | row :: _ => Returns row.2
               | [] => Raises (Exn IndexError)
               end;
        n_bin ← n_bin_of size res;
        row ← get_row chrom_start_end i;
        let chrom_start_end :=
          <[i := (row.1, wrap64 (row.1 + n_bin))]> chrom_start_end in
        if bool_decide (i + 1 < n)%nat then
          row ← get_row chrom_start_end i;
          next ← get_row chrom_start_end (i + 1);
          Returns (<[(i + 1)%nat := (row.2, next.2)]> chrom_start_end)
        else Returns chrom_start_end)
      (done ++ pending start chroms)
      (zip (seq (length done) (length chroms)) chroms)
    = Returns (done ++ windows_from start widths) ∧
    Forall2 (λ chrom w, ∃ size, size_of tab chrom = Some size ∧ covers res size w)
            chroms widths.
Proof.
  intros Hres.
  match goal with |- context [for_outcome ?b _ _] => set (body := b) end.
  induction chroms as [|chrom chroms IH]; intros done start Hn Hstart Hbound Hsizes.
  { exists []. split; [done|constructor]. }
  destruct (Hsizes chrom) as (size & Hsize & Hrange); [left|].
  destruct (size_of_Some _ _ _ Hsize) as (row & rest & Hrow & Hrow2).
  destruct (n_bin_of_covers size res Hres) as (w & Hw & Hcov).
  pose proof (covers_bounds res size w Hres ltac:(lia) Hcov) as Hwb.
  simpl in Hn, Hbound.
  destruct (IH (done ++ [(start, start + w)]) (start + w)) as (widths & Hloop & Hall).
  { rewrite length_app. simpl. lia. }
  { lia. }
  { lia. }
  { intros c Hc. apply Hsizes. by right. }
  exists (w :: widths). split; [|constructor; [by exists size|done]].
  assert (Hstep : body (done ++ pending start (chrom :: chroms)) (length done, chrom)
                  = Returns ((done ++ [(start, start + w)]) ++ pending (start + w) chroms)).
  { unfold body. cbn [fst snd]. cbv zeta.
    rewrite Hrow. cbn [mbind outcome_bind]. rewrite Hrow2, Hw. cbn [mbind outcome_bind].
    pose proof (get_row_app done (pending start (chrom :: chroms)) 0) as Hget0.
    rewrite Nat.add_0_r in Hget0. rewrite Hget0. cbn [pending get_row lookup list_lookup].
    cbn [mbind outcome_bind fst snd].
    rewrite wrap64_small by lia.
    pose proof (insert_app_at done ((start, 0) :: replicate (length chroms) (0, 0)) 0
                  (start, start + w)) as Hins0.
    rewrite Nat.add_0_r in Hins0. rewrite Hins0. cbn [insert list_insert].
    case_bool_decide as Hmore.
    - destruct chroms as [|c cs]; [simpl in Hn; lia|].
      pose proof (get_row_app done
        ((start, start + w) :: replicate (length (c :: cs)) (0, 0)) 0) as Hget1.
      rewrite Nat.add_0_r in Hget1. rewrite Hget1, get_row_app.
      cbn [length replicate get_row lookup list_lookup mbind outcome_bind fst snd].
      rewrite insert_app_at. cbn [insert list_insert pending].
      by rewrite <- app_assoc.
    - destruct chroms as [|c cs]; [|simpl in Hn; lia].
      cbn [length replicate pending]. by rewrite app_nil_r. }
  cbn [length seq zip_with for_outcome]. rewrite Hstep. cbn [mbind outcome_bind].
  rewrite length_app in Hloop. cbn [length] in Hloop.
  replace (S (length done)) with (length done + 1)%nat by lia.
  rewrite Hloop. cbn [windows_from]. by rewrite <- app_assoc.
Qed.



Lemma pending_replicate (chroms : list string) :
  replicate (length chroms) (0, 0) = pending 0 chroms.
Proof. by destruct chroms. Qed.

Lemma generate_windows (config : setup_config) (tab : size_table) :
  read_sizes (genome_reference_path config) = Ok tab → n_columns tab = 2%nat →
  0 < resolution config →
  (length (chrom_list config) < 1024)%nat →
  (∀ chrom, chrom ∈ chrom_list config →
     ∃ size, size_of tab chrom = Some size ∧ 0 ≤ size < 2 ^ 53) →
  ∃ widths,
    generate_chrom_start_end config
    = Returns (path_join (temp_dir config) "chrom_start_end.npy", windows_from 0 widths) ∧
    Forall2 (λ chrom w, ∃ size, size_of tab chrom = Some size ∧
                                covers (resolution config) size w)
            (chrom_list config) widths.
Proof.
  intros Hread Hcols Hres Hlen Hsizes.
  destruct (generate_loop tab (resolution config) (length (chrom_list config))
              (chrom_list config) Hres [] 0) as (widths & Hloop & Hall);
    [done|done|lia|done|].
  exists widths. split; [|done].
  unfold generate_chrom_start_end. cbv zeta. rewrite Hread. cbn [of_result mbind outcome_bind].
  rewrite bool_decide_eq_true_2 by done. cbn [mbind outcome_bind].
  rewrite pending_replicate.
  cbn [app length] in Hloop. rewrite Hloop. done.
Qed.

Lemma windows_from_first (widths : list Z) (start s e : Z) :
  windows_from start widths !! 0%nat = Some (s, e) → s = start.
Proof. destruct widths; [done|]. simpl. by intros [= <- _]. Qed.

Lemma windows_from_next (widths : list Z) :
  ∀ (start : Z) (k : nat) (s e s' e' : Z),
  windows_from start widths !! k = Some (s, e) →
  windows_from start widths !! S k = Some (s', e') → s' = e.
Proof.
  induction widths as [|w widths IH]; intros start k s e s' e' Hk Hnext; [done|].
  destruct k as [|k]; simpl in Hk, Hnext.
  - injection Hk as _ <-. by apply windows_from_first in Hnext.
  - by eapply IH.
Qed.

Lemma windows_from_width (widths : list Z) :
  ∀ (start : Z) (k : nat) (s e : Z),
  windows_from start widths !! k = Some (s, e) → widths !! k = Some (e - s).
Proof.
  induction widths as [|w widths IH]; intros start k s e Hk; [done|].
  destruct k as [|k]; simpl in *.
  - injection Hk as <- <-. f_equal. lia.
  - by eapply IH.
Qed.

Lemma windows_from_length (widths : list Z) (start : Z) :
  length (windows_from start widths) = length widths.
Proof. revert start. induction widths as [|w ws IH]; intros start; simpl; auto. Qed.

(** X11. With a positive resolution, a two-column sizes file that names
    every chromosome of [chrom_list] with a size in [[0, 2^53)], and fewer
    than 1024 chromosomes (so that the quotient is exact and no int64 sum
    wraps), [generate_chrom_start_end] saves to
    [<temp_dir>/chrom_start_end.npy] one window per chromosome, in the order
    of [chrom_list]: the first starts at 0, each next one starts where the
    previous one ends, and the width of a window is the number of bins
    [ceil(size / res)] of the first line of the sizes file that names the
    chromosome. *)
Theorem chrom_start_end_tiles_the_genome (config : setup_config) (tab : size_table) :
  read_sizes (genome_reference_path config) = Ok tab → n_columns tab = 2%nat →
  0 < resolution config →
  (length (chrom_list config) < 1024)%nat →
  (∀ chrom, chrom ∈ chrom_list config →
     ∃ size, size_of tab chrom = Some size ∧ 0 ≤ size < 2 ^ 53) →
  ∃ chrom_start_end,
    generate_chrom_start_end config
    = Returns (path_join (temp_dir config) "chrom_start_end.npy", chrom_start_end) ∧
    length chrom_start_end = length (chrom_list config) ∧
    (∀ s e, chrom_start_end !! 0%nat = Some (s, e) → s = 0) ∧
    (∀ k s e s' e', chrom_start_end !! k = Some (s, e) →
       chrom_start_end !! S k = Some (s', e') → s' = e) ∧
    (∀ k chrom s e, chrom_list config !! k = Some chrom →
       chrom_start_end !! k = Some (s, e) →
       ∃ size, size_of tab chrom = Some size ∧ covers (resolution config) size (e - s)).
Proof.
  intros Hread Hcols Hres Hlen Hsizes.
  destruct (generate_windows config tab Hread Hcols Hres Hlen Hsizes)
    as (widths & Hgen & Hall).
  exists (windows_from 0 widths). split; [done|]. split; [|split; [|split]].
  - rewrite windows_from_length. symmetry. by eapply Forall2_length.
  - intros s e. apply windows_from_first.
  - apply windows_from_next.
  - intros k chrom s e Hk Hse. apply windows_from_width in Hse.
    apply (Forall2_lookup_lr _ _ _ _ _ _ Hall Hk Hse).
Qed.

Lemma generate_loop_missing (tab : size_table) (res : Z) (n : nat) (chroms : list string) :
  res ≠ 0 →
  (∃ chrom, chrom ∈ chroms ∧ size_of tab chrom = None) →
  ∀ (k : nat) (st : list (Z * Z)),
  length st = n → (k + length chroms)%nat = n →
  for_outcome (λ chrom_start_end (ic : nat * string),
      let i := ic.1 in
      let chrom := ic.2 in
      size ← match filter (λ row : string * Z, row.1 = chrom) (size_rows tab) with
             | row :: _ => Returns row.2
             | [] => Raises (Exn IndexError)
             end;
      n_bin ← n_bin_of size res;
      row ← get_row chrom_start_end i;
      let chrom_start_end :=
        <[i := (row.1, wrap64 (row.1 + n_bin))]> chrom_start_end in
      if bool_decide (i + 1 < n)%nat then
        row ← get_row chrom_start_end i;
        next ← get_row chrom_start_end (i + 1);
        Returns (<[(i + 1)%nat := (row.2, next.2)]> chrom_start_end)
      else Returns chrom_start_end)
    st (zip (seq k (length chroms)) chroms)
  = Raises (Exn IndexError).
Proof.
  intros Hres.
  match goal with |- context [for_outcome ?b _ _] => set (body := b) end.
  induction chroms as [|chrom chroms IH]; intros (c & Hc & Hnone) k st Hst Hk.
  { by apply elem_of_nil in Hc. }
  cbn [length seq zip_with for_outcome].
  destruct (size_of tab chrom) as [size|] eqn:Hsize.
  - destruct (size_of_Some _ _ _ Hsize) as (row & rest & Hrow & Hrow2).
    assert (c ∈ chroms) as Hc'.
    { apply elem_of_cons in Hc as [->|?]; [congruence|done]. }
    simpl in Hk.
    assert (∃ st', body st (k, chrom) = Returns st' ∧ length st' = n) as (st' & -> & Hst').
    { unfold body. cbn [fst snd]. cbv zeta. rewrite Hrow. cbn [mbind outcome_bind].
      unfold n_bin_of. rewrite (bool_decide_eq_false_2 (res = 0)) by done.
      cbn [mbind outcome_bind].
      destruct (lookup_lt_is_Some_2 st k) as [r Hr]; [lia|].
      rewrite (get_row_Some st k r Hr). cbn [mbind outcome_bind].
      case_bool_decide as Hmore.
      - rewrite (get_row_Some _ k _ (list_lookup_insert_eq st k _ ltac:(lia))).
        cbn [mbind outcome_bind].
        match goal with |- context [get_row ?a (k + 1)%nat] =>
          destruct (lookup_lt_is_Some_2 a (k + 1)) as [r' Hr'];
            [rewrite length_insert; lia|]
        end.
        rewrite (get_row_Some _ _ _ Hr'). cbn [mbind outcome_bind].
        eexists. split; [done|]. by rewrite !length_insert.
      - eexists. split; [done|]. by rewrite length_insert. }
    cbn [mbind outcome_bind]. apply IH; [by exists c|done|lia].
  - apply size_of_None in Hsize.
    assert (body st (k, chrom) = Raises (Exn IndexError)) as ->; [|done].
    unfold body. cbn [fst snd]. cbv zeta. by rewrite Hsize.
Qed.

(** X12. [generate_chrom_start_end] saves nothing and raises: [ValueError]
    when the sizes file has not exactly two columns; [IndexError] when the
    resolution is not 0 and [chrom_list] names a chromosome that the sizes
    file does not; and, when the resolution is 0, at the first chromosome,
    [OverflowError] (the ceiling of an infinite quotient), or [ValueError]
    if that chromosome has size 0. *)
Theorem generate_chrom_start_end_raises (config : setup_config) (tab : size_table) :
  read_sizes (genome_reference_path config) = Ok tab →
  (n_columns tab ≠ 2%nat → generate_chrom_start_end config = Raises (Exn ValueError))
  ∧ (n_columns tab = 2%nat → resolution config ≠ 0 →
     (∃ chrom, chrom ∈ chrom_list config ∧ size_of tab chrom = None) →
     generate_chrom_start_end config = Raises (Exn IndexError))
  ∧ (n_columns tab = 2%nat → resolution config = 0 →
     ∀ chrom rest size,
       chrom_list config = chrom :: rest → size_of tab chrom = Some size →
       generate_chrom_start_end config
       = if decide (size = 0) then Raises (Exn ValueError) else Raises OverflowError).
Proof.
  intros Hread. split; [|split].
  - intros Hcols. unfold generate_chrom_start_end. cbv zeta. rewrite Hread.
    cbn [of_result mbind outcome_bind]. by rewrite bool_decide_eq_false_2.
  - intros Hcols Hres Hmissing. unfold generate_chrom_start_end. cbv zeta. rewrite Hread.
    cbn [of_result mbind outcome_bind]. rewrite bool_decide_eq_true_2 by done.
    cbn [mbind outcome_bind].
    rewrite (generate_loop_missing tab (resolution config) (length (chrom_list config)));
      [done|done|done|by rewrite length_replicate|done].
  - intros Hcols Hres chrom rest size Hlist Hsize.
    destruct (size_of_Some _ _ _ Hsize) as (row & more & Hrow & Hrow2).
    unfold generate_chrom_start_end. cbv zeta. rewrite Hread.
    cbn [of_result mbind outcome_bind]. rewrite bool_decide_eq_true_2 by done.
    cbn [mbind outcome_bind]. rewrite Hlist.
    cbn [length seq zip_with for_outcome fst snd]. rewrite Hrow.
    cbn [mbind outcome_bind]. rewrite Hrow2, Hres. unfold n_bin_of.
    rewrite (bool_decide_eq_true_2 (0 = 0)) by done.
    destruct (decide (size = 0)) as [Hz|Hz].
    + by rewrite (bool_decide_eq_true_2 (size = 0)).
    + by rewrite (bool_decide_eq_false_2 (size = 0)).
Qed.

End SetupProperties.

(** ** The generated layout and the matrix builder *)

Section Composition.

Context `{Machine} `{Reference}.




End Composition.

(** ** The directories *)

Section DirectoryProperties.

Context `{Filesystem}.

(** X14. On a file system in which a directory exists once [os.mkdir] has
    made it and [os.mkdir] removes nothing, a call of [create_dir] that
    returns leaves [temp_dir] and its sub-directories [raw], [rw] and
    [embed] existing, and a second call returns without changing the file
    system. *)
Theorem create_dir_is_idempotent (config : config) (s s' : fs) :
  (∀ s p s', mkdir s p = Ok s' → path_exists s' p = true) →
  (∀ s p s' q, mkdir s p = Ok s' → path_exists s q = true → path_exists s' q = true) →
  create_dir config s = Ok s' →
  path_exists s' (temp_dir config) = true
  ∧ path_exists s' (path_join (temp_dir config) "raw") = true
  ∧ path_exists s' (path_join (temp_dir config) "rw") = true
  ∧ path_exists s' (path_join (temp_dir config) "embed") = true
  ∧ create_dir config s' = Ok s'.
Proof.
  intros Hnew Hkeep Hrun.
  assert (Hstep : ∀ s p s1,
    (if path_exists s p then Ok s else mkdir s p) = Ok s1 →
    path_exists s1 p = true ∧ ∀ q, path_exists s q = true → path_exists s1 q = true).
  { intros s0 p s1. destruct (path_exists s0 p) eqn:Hp.
    - intros [= <-]. by split.
    - intros Hmk. split; [by eapply Hnew|]. intros q. by eapply Hkeep. }
  unfold create_dir in Hrun. cbv zeta in Hrun.
  destruct (if path_exists s (temp_dir config) then Ok s else mkdir s (temp_dir config))
    as [s1|] eqn:H1; [|done]. cbn [mbind res_bind] in Hrun.
  destruct (if path_exists s1 (path_join (temp_dir config) "raw") then Ok s1
            else mkdir s1 (path_join (temp_dir config) "raw"))
    as [s2|] eqn:H2; [|done]. cbn [mbind res_bind] in Hrun.
  destruct (if path_exists s2 (path_join (temp_dir config) "rw") then Ok s2
            else mkdir s2 (path_join (temp_dir config) "rw"))
    as [s3|] eqn:H3; [|done]. cbn [mbind res_bind] in Hrun.
  apply Hstep in H1 as [E1 K1], H2 as [E2 K2], H3 as [E3 K3], Hrun as [E4 K4].
  assert (P1 : path_exists s' (temp_dir config) = true) by auto.
  assert (P2 : path_exists s' (path_join (temp_dir config) "raw") = true) by auto.
  assert (P3 : path_exists s' (path_join (temp_dir config) "rw") = true) by auto.
  repeat (split; [done|]).
  unfold create_dir. cbv zeta. rewrite P1. cbn [mbind res_bind].
  rewrite P2. cbn [mbind res_bind]. rewrite P3. cbn [mbind res_bind].
  by rewrite E4.
Qed.

End DirectoryProperties.

(** ** The choice of a GPU *)

Section GpuProperties.

Context `{Cuda}.

Lemma str_split_nonempty (sep : ascii) (s : string) : str_split sep s ≠ [].
Proof.
  induction s as [|c s IH]; simpl; [done|].
  case_bool_decide; [done|]. by destruct (str_split sep s).
Qed.

Lemma mapM_result_length {A B} (f : A → result B) (l : list A) (k : list B) :
  mapM f l = Ok k → length k = length l.
Proof.
  revert k. induction l as [|x l IH]; intros k.
  { by intros [= <-]. }
  change (mapM f (x :: l)) with (y ← f x; k ← mapM f l; mret (y :: k)).
  destruct (f x) as [y|]; [|done]. simpl.
  destruct (mapM f l) as [k'|]; [|done]. simpl.
  intros [= <-]. simpl. f_equal. by apply IH.
Qed.

Lemma query_loop (visible_devices : list Z) :
  ∀ free_memory : list Z,
  for_io (λ free_memory gpu_id,
      match (total ← total_memory gpu_id;
             reserved ← memory_reserved gpu_id;
             Ok (total - reserved)) with
      | Ok memory_free => mret (free_memory ++ [memory_free])
      | Raise _ => emit (SayErrorQuerying gpu_id);; mret (free_memory ++ [0])
      end) free_memory visible_devices
  = IO (SayErrorQuerying <$> filter (λ g, query_fails g) visible_devices)
       (Ok (free_memory ++ (memory_free <$> visible_devices))).
Proof.
  match goal with |- context [for_io ?b _ _] => set (body := b) end.
  induction visible_devices as [|g gs IH]; intros free_memory.
  { simpl. by rewrite app_nil_r. }
  assert (Hstep : body free_memory g
    = IO (if query_fails g then [SayErrorQuerying g] else [])
         (Ok (free_memory ++ [memory_free g]))).
  { unfold body, query_fails, memory_free.
    by destruct (total ← total_memory g; reserved ← memory_reserved g;
                 Ok (total - reserved)). }
  cbn [for_io]. rewrite Hstep, io_bind_Ok, IH. cbn [io_log io_res].
  rewrite filter_cons, fmap_cons, <- app_assoc. f_equal.
  destruct (decide (query_fails g)) as [Hq|Hq].
  - apply Is_true_true in Hq. rewrite Hq. by rewrite fmap_cons.
  - apply Is_true_false in Hq. by rewrite Hq.
Qed.

Lemma get_free_gpu_run (s : string) (visible_devices : list Z) :
  environ_get "CUDA_VISIBLE_DEVICES" = Some s →
  mapM py_int (str_split "," s) = Ok visible_devices →
  ∃ gpu_id,
    gpu_id ∈ visible_devices ∧
    (∀ g, g ∈ visible_devices → memory_free g ≤ memory_free gpu_id) ∧
    get_free_gpu
    = IO ((SayErrorQuerying <$> filter (λ g, query_fails g) visible_devices)
          ++ [SaySetting gpu_id; SetDevice gpu_id])
         (set_device gpu_id).
Proof.
  intros Henv Hparse.
  set (free_memory := memory_free <$> visible_devices).
  assert (Hlen : length free_memory = length visible_devices)
    by (unfold free_memory; by rewrite length_fmap).
  assert (Hne : visible_devices ≠ []).
  { intros Hnil. apply mapM_result_length in Hparse. rewrite Hnil in Hparse.
    pose proof (str_split_nonempty "," s). by destruct (str_split "," s). }
  destruct (np_max_ok free_memory) as [max_mem Hmax].
  { unfold free_memory. by destruct visible_devices. }
  destruct (np_max_spec _ _ Hmax) as [Hin Hle].
  set (ids := filter (λ i, free_memory !! i = Some max_mem) (seq 0 (length free_memory))).
  assert (Hids : ids ≠ []).
  { apply list_elem_of_lookup in Hin as [i Hi].
    assert (i ∈ ids) as Hi'.
    { apply list_elem_of_filter. split; [done|]. apply elem_of_seq.
      apply lookup_lt_Some in Hi. lia. }
    intros Hnil. rewrite Hnil in Hi'. by apply elem_of_nil in Hi'. }
  destruct (lookup_lt_is_Some_2 ids (draw (length ids) `mod` length ids)%nat)
    as [chosen_id Hchosen].
  { apply Nat.mod_upper_bound. by destruct ids. }
  assert (free_memory !! chosen_id = Some max_mem) as Hfree.
  { apply list_elem_of_lookup_2 in Hchosen.
    by apply list_elem_of_filter in Hchosen as [? _]. }
  destruct (lookup_lt_is_Some_2 visible_devices chosen_id) as [gpu_id Hgpu].
  { rewrite <- Hlen. by eapply lookup_lt_Some. }
  assert (memory_free gpu_id = max_mem) as Hmem.
  { unfold free_memory in Hfree. rewrite list_lookup_fmap, Hgpu in Hfree.
    by injection Hfree. }
  exists gpu_id. split; [by eapply list_elem_of_lookup_2|]. split.
  { intros g Hg. rewrite Hmem. apply Hle. unfold free_memory.
    apply list_elem_of_fmap. by exists g. }
  unfold get_free_gpu. rewrite Henv, Hparse, lift_Ok_bind.
  rewrite query_loop, io_bind_Ok. cbn [app]. fold free_memory.
  rewrite bool_decide_eq_true_2 by (rewrite Hlen; destruct visible_devices; simpl; [done|lia]).
  rewrite Hmax, lift_Ok_bind. cbv zeta. fold ids.
  rewrite Hchosen, lift_Ok_bind.
  unfold py_getitem. rewrite Hgpu, lift_Ok_bind.
  cbn. by rewrite ?app_nil_r.
Qed.

(** X15. When [CUDA_VISIBLE_DEVICES] is set and each of its
    comma-separated pieces converts to an integer, [get_free_gpu] prints one
    error message per GPU whose query raised, then announces and calls
    [torch.cuda.set_device] once, on a GPU of the list whose recorded free
    memory (total minus reserved, 0 when the query raised) is the largest
    of the list; this also when every query raised. *)
Theorem get_free_gpu_sets_a_gpu_with_most_free_memory (s : string)
    (visible_devices : list Z) :
  environ_get "CUDA_VISIBLE_DEVICES" = Some s →
  mapM py_int (str_split "," s) = Ok visible_devices →
  ∃ gpu_id,
    gpu_id ∈ visible_devices ∧
    (∀ g, g ∈ visible_devices → memory_free g ≤ memory_free gpu_id) ∧
    get_free_gpu
    = IO ((SayErrorQuerying <$> filter (λ g, query_fails g) visible_devices)
          ++ [SaySetting gpu_id; SetDevice gpu_id])
         (set_device gpu_id).
Proof. apply get_free_gpu_run. Qed.

(** X16. [get_free_gpu] never prints [No free GPU found. Using CPU.]: the
    branch of line 68 cannot be reached, since the list of visible devices
    is never empty when the loop is over. *)
Theorem get_free_gpu_never_reports_no_free_gpu :
  Forall (λ e, e ≠ SayNoFreeGpu) (io_log get_free_gpu).
Proof.
  destruct (environ_get "CUDA_VISIBLE_DEVICES") as [s|] eqn:Henv.
  - destruct (mapM py_int (str_split "," s)) as [visible_devices|e] eqn:Hparse.
    + destruct (get_free_gpu_run s visible_devices Henv Hparse) as (g & _ & _ & ->).
      cbn [io_log]. apply Forall_app. split.
      * by apply Forall_fmap, Forall_true.
      * by repeat constructor.
    + unfold get_free_gpu. rewrite Henv, Hparse. cbn. constructor.
  - unfold get_free_gpu. rewrite Henv. cbn. by repeat constructor.
Qed.

(** X17. With [CUDA_VISIBLE_DEVICES] set to the empty string, [int] being
    what it is on the empty string, [get_free_gpu] raises [ValueError]
    before it prints anything or selects a device. *)
Theorem get_free_gpu_rejects_an_empty_device_list :
  environ_get "CUDA_VISIBLE_DEVICES" = Some "" →
  py_int "" = Raise ValueError →
  get_free_gpu = IO [] (Raise ValueError).
Proof.
  intros Henv Hint. unfold get_free_gpu. rewrite Henv. cbn [str_split].
  change (mapM py_int [""]) with (y ← py_int ""; k ← mapM py_int []; mret (y :: k)).
  by rewrite Hint.
Qed.

End GpuProperties.

(** * The chunked layout and absent cells *)

Section SampleRun.

Import Sample.

(** C1 (the code departs from the claim). On a table whose cells 0 and 2
    have contiguous rows and whose cell 1 has none, the chunked layout and
    the whole-table layout agree on the cells that have records and differ
    on cell 1: the chunked layout leaves the integer [0] there, the
    whole-table layout an all-zero matrix. *)
Theorem layouts_differ_on_absent_cell :
  ∃ g_chunked g_whole,
    io_res (@extract_table _ (machine data_txt) (cfg None (Some true))) = Ok g_chunked ∧
    io_res (@extract_table _ (machine data_txt) (cfg None (Some false))) = Ok g_whole ∧
    cell_at g_chunked 0 1 = Some Int0 ∧
    cell_at g_whole 0 1 = Some (Mtx zeros10) ∧
    g_chunked ≠ g_whole ∧
    (∀ i k, k ≠ 1%nat → cell_at g_chunked i k = cell_at g_whole i k).
Proof.
  eexists. eexists.
  split; [vm_compute; reflexivity|].
  split; [vm_compute; reflexivity|].
  split; [vm_compute; reflexivity|].
  split; [vm_compute; reflexivity|].
  split; [vm_compute; discriminate|].
  intros [|[|i]] [|[|[|k]]] Hk;
    first [exfalso; by apply Hk | vm_compute; reflexivity].
Qed.

(** C2 (the code departs from the claim). In the chunked layout a cell id
    below the cell count that has no row in the table gets no matrix: its
    entry in the array of every chromosome, as held and as saved, is the
    integer [0] the array was created with. *)
Theorem chunked_layout_leaves_placeholders :
  ∃ g,
    io_res (@extract_table _ (machine data_txt) (cfg None (Some true))) = Ok g ∧
    cell_at g 0 1 = Some Int0 ∧ cell_at g 1 1 = Some Int0 ∧
    ∀ path arr,
      Save path arr ∈ io_log (@extract_table _ (machine data_txt) (cfg None (Some true))) →
      arr !! 1%nat = Some Int0.
Proof.
  eexists.
  split; [vm_compute; reflexivity|].
  split; [vm_compute; reflexivity|].
  split; [vm_compute; reflexivity|].
  intros path arr Hin. vm_compute in Hin.
  repeat (apply elem_of_cons in Hin as [Hin|Hin];
    [first [discriminate Hin | injection Hin as -> ->; reflexivity]|]).
  by apply elem_of_nil in Hin.
Qed.

(** C6 (the claim fails). With a table that has no count column the run of
    the whole-table layout and the run of the chunked layout both fail with
    [KeyError]; with the column added and every count 1 the run succeeds. *)
Lemma count_not_defaulted_in_table_layouts :
  io_res (@extract_table _ (machine data_txt_no_count) (cfg None (Some false)))
    = Raise KeyError ∧
  io_res (@extract_table _ (machine data_txt_no_count) (cfg None (Some true)))
    = Raise KeyError ∧
  is_ok (io_res (@extract_table _ (machine (assign_count data_txt_no_count))
                   (cfg None (Some false)))).
Proof.
  split; [vm_compute; reflexivity|].
  split; [vm_compute; reflexivity|].
  eexists. vm_compute. reflexivity.
Qed.

(** C8 (the code departs from the claim). With the blacklist
    [chr1:3000-4000], on two records of which the first has its right anchor
    and the second its left anchor in the interval, the filter returns a
    frame without rows, and applied to that frame it raises [KeyError]
    instead of returning it again.  On a record whose left anchor lies in the
    interval the filter raises [KeyError] at once, and so does [data2mtx] on
    the table of a cell that has only this record. *)
Theorem blacklist_filter_raises_on_an_emptied_side :
  ∃ kept,
    @remove_blacklist _ (machine data_txt) "bl.bed" Edge.half_blacklisted = Ok kept ∧
    rows kept = [] ∧
    @remove_blacklist _ (machine data_txt) "bl.bed" kept = Raise KeyError ∧
    @remove_blacklist _ (machine data_txt) "bl.bed" Edge.left_blacklisted = Raise KeyError ∧
    @data2mtx _ (machine data_txt) (cfg None None) (Table Edge.left_blacklisted)
      windows false 0 "bl.bed" = Raise KeyError.
Proof.
  eexists.
  split; [vm_compute; reflexivity|].
  split; [reflexivity|].
  split; [vm_compute; reflexivity|].
  split; vm_compute; reflexivity.
Qed.

End SampleRun.

(** * The theorems at the sample run *)

Section Witnesses.

Import Sample.








Lemma count_defaulted_only_for_files_witness :
  @data2mtx _ (machine data_txt_no_count) (cfg None None) (Table data_txt_no_count)
    windows false 0 "" = Raise KeyError ∧
  @data2mtx _ (machine data_txt_no_count) (cfg None None) (Path "cell0.txt")
    windows false 0 ""
  = @data2mtx _ (machine data_txt_no_count) (cfg None None)
      (Table (assign_count data_txt_no_count)) windows false 0 "".
Proof.
  destruct (@count_defaulted_only_for_files _ (machine data_txt_no_count) (cfg None None)
              windows false 0 "" data_txt_no_count) as (Htable & Hfile & _).
  - apply (bool_decide_unpack _). vm_compute. exact I.
  - split; [exact Htable|]. apply Hfile. reflexivity.
Defined.

Lemma aggregate_order_independent_witness :
  ∃ g,
    aggregate 2 (alloc 2 2) (Ok <$> [([zeros10; zeros10], 0); ([zeros10; zeros10], 1)]) = Ok g ∧
    aggregate 2 (alloc 2 2) (Ok <$> [([zeros10; zeros10], 1); ([zeros10; zeros10], 0)]) = Ok g.
Proof.
  apply (aggregate_order_independent 2 2).
  - apply perm_swap.
  - apply (bool_decide_unpack _). vm_compute. exact I.
  - intros c Hc. simpl in Hc.
    repeat (apply elem_of_cons in Hc as [->|Hc]; [lia|]). by apply elem_of_nil in Hc.
  - repeat constructor.
Defined.

Lemma unknown_format_raises_witness :
  io_log (@extract_table _ (machine data_txt) (cfg (Some "higashi_v3") None)) = [] ∧
  io_res (@extract_table _ (machine data_txt) (cfg (Some "higashi_v3") None))
    = Raise EOFError.
Proof.
  apply (@unknown_format_raises _ (machine data_txt) (cfg (Some "higashi_v3") None)
           "higashi_v3").
  - reflexivity.
  - discriminate.
  - discriminate.
Defined.

Lemma missing_format_is_higashi_v1_witness :
  @extract_table _ (machine data_txt) (cfg None (Some false))
  = @extract_table _ (machine data_txt) (cfg (Some "higashi_v1") (Some false)).
Proof.
  apply (@missing_format_is_higashi_v1 _ (machine data_txt) (cfg None (Some false))).
  reflexivity.
Defined.

(** The layouts agree on the sample table in which every cell has rows. *)
Lemma layouts_agree_at_sample :
  ∃ g,
    io_res (@extract_structured _ (machine data_txt_full) (cfg None (Some true)) windows "")
      = Ok g ∧
    io_res (@extract_whole _ (machine data_txt_full) (cfg None (Some true)) windows "")
      = Ok g.
Proof.
  destruct (@layouts_agree_when_every_cell_has_rows _ (machine data_txt_full)
              (cfg None (Some true)) windows "" data_txt_full [data_txt_full] 2)
    as (g & Hs & Hw & _).
  - reflexivity.
  - reflexivity.
  - reflexivity.
  - reflexivity.
  - by repeat constructor.
  - apply (bool_decide_unpack _). vm_compute. exact I.
  - apply (bool_decide_unpack _). vm_compute. exact I.
  - apply sorted_contiguous. simpl.
    repeat (constructor; [|repeat constructor; lia]). constructor.
  - lia.
  - intros c. simpl. split.
    + intros Hc. repeat (apply elem_of_cons in Hc as [->|Hc]; [lia|]).
      by apply elem_of_nil in Hc.
    + intros Hc. assert (c = 0 ∨ c = 1) as [-> | ->] by lia.
      * left.
      * do 2 right. left.
  - intros c Hc. assert (c = 0 ∨ c = 1) as [-> | ->] by lia.
    + eexists. vm_compute. reflexivity.
    + eexists. vm_compute. reflexivity.
  - exists g. by split.
Defined.

End Witnesses.

(** * The further theorems at sample inputs *)

Section MoreWitnesses.

Import Sample Edge.

Lemma repeated_chromosome_gets_no_record_witness :
  ∃ m1_list m,
    @data2mtx _ (machine data_txt) cfg_repeated (Table data_txt) windows false 0 ""
      = Ok (m1_list, 0) ∧
    m1_list !! 1%nat = Some m ∧ data m = ∅.
Proof.
  assert (is_ok (@data2mtx _ (machine data_txt) cfg_repeated (Table data_txt) windows
                   false 0 "")) as [[m1_list c] Hrun].
  { eexists. vm_compute. reflexivity. }
  assert (c = 0) as ->.
  { by destruct (data2mtx_inv _ _ _ _ _ _ _ _ Hrun) as [-> _]. }
  destruct (@repeated_chromosome_gets_no_record _ (machine data_txt) cfg_repeated
              (Table data_txt) windows false 0 "" m1_list 0 1 "chr1" Hrun)
    as (m & Hm & Hempty).
  - reflexivity.
  - simpl. left.
  - exists m1_list, m. by split.
Defined.

Lemma data2mtx_ignores_unlisted_chromosomes_witness :
  @data2mtx _ (machine data_txt) cfg_chr1
    (Table (select (λ r, chrom1 r ∈ chrom_list cfg_chr1) data_txt)) windows false 0 "bl.bed"
  = @data2mtx _ (machine data_txt) cfg_chr1 (Table data_txt) windows false 0 "bl.bed".
Proof.
  apply (@data2mtx_ignores_unlisted_chromosomes _ (machine data_txt) cfg_chr1 data_txt
           windows false 0 "bl.bed").
  split; intros _; apply (bool_decide_unpack _); vm_compute; exact I.
Defined.


Lemma arrays_are_saved_after_all_tasks_witness :
  ∃ (ids : list Z) (saved : list event),
    io_log (@extract_table _ (machine_disk_full data_txt) (cfg None (Some false)))
    = (Submit <$> ids) ++ saved ∧
    (saved = [] ∨
     ∃ g k path arr,
       length g = 2%nat ∧
       saved = take (S k) (saves (cfg None (Some false)) g) ∧
       saves (cfg None (Some false)) g !! k = Some (Save path arr) ∧
       @write_npy _ (machine_disk_full data_txt) path arr = Raise OSError ∧
       ∀ path' arr', Save path' arr' ∈ take k (saves (cfg None (Some false)) g) →
                     @write_npy _ (machine_disk_full data_txt) path' arr' = Ok ()).
Proof.
  destruct (@arrays_are_saved_after_all_tasks _ (machine_disk_full data_txt)
              (cfg None (Some false))) as (ids & saved & Hlog & _ & Hraise).
  exists ids, saved. split; [exact Hlog|].
  apply Hraise. vm_compute. reflexivity.
Defined.

Lemma file_list_cells_are_line_numbers_witness :
  ∃ g, @extract_filelist _ (machine data_txt) (cfg (Some "higashi_v2") None) windows ""
       = IO [Submit 0; Submit 1] (Ok g) ∧
       grid 2 2 g.
Proof.
  destruct (@file_list_cells_are_line_numbers _ (machine data_txt)
              (cfg (Some "higashi_v2") None) windows "" filelist_txt)
    as (g & Hrun & Hgrid & _).
  - reflexivity.
  - reflexivity.
  - intros [|[|k]] line Hline; [| |done]; injection Hline as <-;
      eexists; vm_compute; reflexivity.
  - exists g. by split.
Defined.


Lemma empty_table_witness :
  @extract_whole _ (machine_chunks empty_txt []) (cfg None (Some false)) windows ""
    = IO [] (Raise ValueError) ∧
  @extract_structured _ (machine_chunks empty_txt []) (cfg None (Some true)) windows ""
    = IO [] (Ok [[]; []]) ∧
  @extract_structured _ (machine_chunks empty_txt [empty_txt]) (cfg None (Some true))
    windows "" = IO [] (Raise IndexError).
Proof.
  destruct (@empty_table _ (machine_chunks empty_txt []) (cfg None (Some false)) windows "")
    as (Hwhole & _ & _); [reflexivity|].
  destruct (@empty_table _ (machine_chunks empty_txt []) (cfg None (Some true)) windows "")
    as (_ & Hnone & _); [reflexivity|].
  destruct (@empty_table _ (machine_chunks empty_txt [empty_txt]) (cfg None (Some true))
              windows "") as (_ & _ & Hempty); [reflexivity|].
  split; [by apply (Hwhole empty_txt)|].
  split; [by apply Hnone|].
  by apply (Hempty empty_txt []).
Defined.

Lemma chunked_layout_rejects_index_columns_witness :
  @extract_structured _ (machine_chunks indexed_txt [indexed_txt]) (cfg None (Some true))
    windows "" = IO [] (Raise ValueError).
Proof.
  apply (@chunked_layout_rejects_index_columns _ (machine_chunks indexed_txt [indexed_txt])
           (cfg None (Some true)) windows "" (columns indexed_txt) [indexed_txt]).
  - reflexivity.
  - discriminate.
  - repeat constructor. discriminate.
  - left. simpl. left.
Defined.

Lemma headerless_file_with_fewer_columns_witness :
  @read_contacts _ (machine cell_txt) (cfg_headerless (Some false)) (Path "cell0.txt")
  = Ok (assign_count {| columns := ["chrom1"; "pos1"; "chrom2"; "pos2"];
                        rows := records |}).
Proof.
  destruct (@headerless_file_with_fewer_columns _ (machine cell_txt)
              (cfg_headerless (Some false)) "cell0.txt" cell_txt
              ["chrom1"; "pos1"; "chrom2"; "pos2"; "count"] windows false 0 "")
    as [Hfalse _].
  - reflexivity.
  - reflexivity.
  - simpl. lia.
  - apply (bool_decide_unpack _). vm_compute. exact I.
  - by apply Hfalse.
Defined.

Lemma sample_sizes (chrom : string) :
  chrom ∈ ["chr1"; "chr2"] → ∃ size, size_of sizes chrom = Some size ∧ 0 ≤ size < 2 ^ 53.
Proof.
  intros Hc.
  repeat (apply elem_of_cons in Hc as [->|Hc];
    [eexists; split; [vm_compute; reflexivity|split; [lia|reflexivity]]|]).
  by apply elem_of_nil in Hc.
Qed.

Lemma chrom_start_end_tiles_the_genome_witness :
  ∃ chrom_start_end,
    @generate_chrom_start_end reference setup_cfg
    = Returns ("tmp/chrom_start_end.npy", chrom_start_end) ∧
    length chrom_start_end = 2%nat ∧
    (∀ s e, chrom_start_end !! 1%nat = Some (s, e) →
       ∃ size, size_of sizes "chr2" = Some size ∧ covers 1000 size (e - s)).
Proof.
  destruct (@chrom_start_end_tiles_the_genome reference setup_cfg sizes)
    as (chrom_start_end & Hrun & Hlen & _ & _ & Hwidth).
  - reflexivity.
  - reflexivity.
  - simpl. lia.
  - simpl. lia.
  - apply sample_sizes.
  - exists chrom_start_end. split; [exact Hrun|]. split; [exact Hlen|].
    intros s e. by apply (Hwidth 1%nat "chr2").
Defined.

Lemma generate_chrom_start_end_raises_witness :
  @generate_chrom_start_end reference setup_cfg_unknown = Raises (Exn IndexError).
Proof.
  destruct (@generate_chrom_start_end_raises reference setup_cfg_unknown sizes)
    as (_ & Hmissing & _); [reflexivity|].
  apply Hmissing.
  - reflexivity.
  - simpl. lia.
  - exists "chrX". split; [simpl; right; left|reflexivity].
Defined.


Lemma create_dir_is_idempotent_witness :
  @create_dir directories (cfg None None) ["tmp"]
    = Ok ["tmp/embed"; "tmp/rw"; "tmp/raw"; "tmp"] ∧
  @create_dir directories (cfg None None) ["tmp/embed"; "tmp/rw"; "tmp/raw"; "tmp"]
    = Ok ["tmp/embed"; "tmp/rw"; "tmp/raw"; "tmp"].
Proof.
  split; [reflexivity|].
  apply (@create_dir_is_idempotent directories (cfg None None) ["tmp"]).
  - intros s p s'. simpl. case_bool_decide; [done|]. intros [= <-].
    apply bool_decide_eq_true_2. left.
  - intros s p s' q. simpl. case_bool_decide; [done|]. intros [= <-] Hq.
    apply bool_decide_eq_true_2. right. by apply bool_decide_eq_true_1 in Hq.
  - reflexivity.
Defined.

Lemma get_free_gpu_sets_a_gpu_with_most_free_memory_witness :
  ∃ gpu_id,
    gpu_id ∈ [0; 1; 2] ∧
    (∀ g, g ∈ [0; 1; 2] → @memory_free (cuda (Some "0,1,2")) g
                           ≤ @memory_free (cuda (Some "0,1,2")) gpu_id) ∧
    @get_free_gpu (cuda (Some "0,1,2"))
    = IO ((SayErrorQuerying <$>
             filter (λ g, @query_fails (cuda (Some "0,1,2")) g) [0; 1; 2])
          ++ [SaySetting gpu_id; SetDevice gpu_id])
         (Ok ()).
Proof.
  apply (@get_free_gpu_sets_a_gpu_with_most_free_memory (cuda (Some "0,1,2")) "0,1,2").
  - reflexivity.
  - reflexivity.
Defined.

Lemma get_free_gpu_rejects_an_empty_device_list_witness :
  @get_free_gpu (cuda (Some "")) = IO [] (Raise ValueError).
Proof.
  apply (@get_free_gpu_rejects_an_empty_device_list (cuda (Some ""))).
  - reflexivity.
  - reflexivity.
Defined.

Lemma aggregate_stops_at_the_first_failed_task_witness :
  aggregate 2 (alloc 2 2)
    ((Ok <$> [([zeros10; zeros10], 0)]) ++ Raise KeyError :: [Ok ([zeros10; zeros10], 1)])
  = Raise KeyError.
Proof.
  apply (aggregate_stops_at_the_first_failed_task 2 2).
  constructor; [|constructor]. simpl. split; [reflexivity|lia].
Defined.


End MoreWitnesses.
